(** * ai-job-assistant: text chunking, vector index and generation chains

    A shallow embedding of [src/utils.py], [src/rag_pipeline.py],
    [src/prompt_templates.py] and [src/generation_chains.py], and the
    properties of the design document checked against it.

    Conventions.
    - A Python [str] is a list of Unicode code points ([list N]); Python
      [int]s are [Z]; [len] is [Z.of_nat (length _)].
    - The regular expressions of [utils.py] are written out as the list
      functions they denote ([\s] is Python's Unicode whitespace class,
      the same class [str.strip()] removes).
    - Code that can raise returns a [result]; a [try/except Exception]
      block is a match on that result.
    - [exn] stands for the subclasses of [Exception].  The external
      collaborators (embedding model, vector store, chat model) are the
      fields of the class [Collaborators]; the clock reading is an
      argument.
    - Calls to the logger are kept where the log record is the error
      signal (the vector index); the generator's are left out. *)

From Stdlib Require Import List ZArith NArith Lia Bool String Ascii.
From Stdlib Require Import Numbers.DecimalString Numbers.DecimalZ.
From stdpp Require Import gmap strings.
Import ListNotations.

Local Open Scope Z_scope.

(** ** Python strings *)

Definition char := N.
Definition str := list char.

(** A literal of the source, as code points (ASCII literals only). *)
Definition py (s : string) : str :=
  map N_of_ascii (list_ascii_of_string s).

Definition len {A} (l : list A) : Z := Z.of_nat (length l).

Definition SPACE : char := 32%N.
Definition NEWLINE : char := 10%N.

Local Open Scope N_scope.

Definition in_range (lo hi c : char) : bool := (lo <=? c) && (c <=? hi).

(** [\s] on a [str] pattern, and the characters [str.strip()] removes:
    the code points for which [Py_UNICODE_ISSPACE] holds. *)
Definition is_space (c : char) : bool :=
  in_range 9 13 c || in_range 28 32 c || (c =? 133) || (c =? 160)
  || (c =? 5760) || in_range 8192 8202 c || (c =? 8232) || (c =? 8233)
  || (c =? 8239) || (c =? 8287) || (c =? 12288).

Definition is_newline (c : char) : bool := (c =? NEWLINE).

(** [[.!?]] *)
Definition is_terminator (c : char) : bool :=
  (c =? 46) || (c =? 33) || (c =? 63).

(** The class [[a-zA-Z0-9\s.,!?-]] of [clean_text]; its complement is
    what the second substitution deletes. *)
Definition is_kept (c : char) : bool :=
  in_range 97 122 c || in_range 65 90 c || in_range 48 57 c || is_space c
  || (c =? 46) || (c =? 44) || (c =? 33) || (c =? 63) || (c =? 45).

Local Close Scope N_scope.

(** [re.sub(p+, ' ', s)]: every maximal run of characters of class [p]
    becomes one space.  [in_run] tells that the previous character was
    part of the run being replaced. *)
Fixpoint collapse (p : char -> bool) (in_run : bool) (s : str) : str :=
  match s with
  | [] => []
  | c :: r =>
      if p c then (if in_run then collapse p true r else SPACE :: collapse p true r)
      else c :: collapse p false r
  end.

Definition sub_runs (p : char -> bool) (s : str) : str := collapse p false s.

(** [re.sub('[^...]', '', s)] *)
Definition delete_not (p : char -> bool) (s : str) : str := List.filter p s.

Fixpoint lstrip (s : str) : str :=
  match s with
  | [] => []
  | c :: r => if is_space c then lstrip r else s
  end.

Fixpoint rstrip (s : str) : str :=
  match s with
  | [] => []
  | c :: r =>
      match rstrip r with
      | [] => if is_space c then [] else [c]
      | r' => c :: r'
      end
  end.

Definition strip (s : str) : str := rstrip (lstrip s).

(** ** [utils.clean_text] *)

Definition clean_text (text : str) : str :=
  match text with
  | [] => []
  | _ =>
      let text := sub_runs is_newline text in
      let text := delete_not is_kept text in
      let text := sub_runs is_space text in
      strip text
  end.

(** ** [utils.chunk_text] *)

(** [re.split(r'(?<=[.!?])\s+', text)].  A match starts at a whitespace
    character that directly follows a terminator and extends over the
    whole whitespace run; the pieces between matches are returned, the
    last one also when it is empty.  [cur] is the current piece, reversed;
    [skipping] tells that a separator is being consumed. *)
Definition after_terminator (cur : str) : bool :=
  match cur with
  | p :: _ => is_terminator p
  | [] => false
  end.

Fixpoint split_go (skipping : bool) (cur : str) (s : str) : list str :=
  match s with
  | [] => [rev cur]
  | c :: r =>
      if is_space c then
        if skipping then split_go true cur r
        else if after_terminator cur then rev cur :: split_go true [] r
        else split_go false (c :: cur) r
      else split_go false (c :: cur) r
  end.

Definition split_sentences (text : str) : list str := split_go false [] text.

(** [" ".join(parts)] and, for [_retrieve_context], ["\n\n".join(parts)]. *)
Fixpoint join (sep : str) (parts : list str) : str :=
  match parts with
  | [] => []
  | [p] => p
  | p :: rest => p ++ sep ++ join sep rest
  end.

Definition join_sp : list str -> str := join [SPACE].

(** The overlap loop: [rs] is [reversed(current_chunk)], [buf] the
    [overlap_buffer], [olen] is [overlap_len]; [break] at the first
    sentence that does not fit. *)
Fixpoint overlap_scan (overlap : Z) (rs : list str) (buf : list str) (olen : Z)
  : list str * Z :=
  match rs with
  | [] => (buf, olen)
  | s :: rs' =>
      if olen + len s <? overlap
      then overlap_scan overlap rs' (s :: buf) (olen + len s)
      else (buf, olen)
  end.

Definition overlap_seed (overlap : Z) (current_chunk : list str) : list str * Z :=
  overlap_scan overlap (rev current_chunk) [] 0.

Record chunker := {
  chunks : list str;
  current_chunk : list str;
  current_length : Z
}.

Definition nonempty {A} (l : list A) : bool :=
  match l with [] => false | _ => true end.

(** One iteration of [for sentence in sentences]. *)
Definition feed (chunk_size overlap : Z) (st : chunker) (sentence : str) : chunker :=
  let sentence_len := len sentence in
  let st :=
    if (current_length st + sentence_len >? chunk_size) && nonempty (current_chunk st)
    then
      let chunk_str := join_sp (current_chunk st) in
      let '(overlap_buffer, overlap_len) := overlap_seed overlap (current_chunk st) in
      {| chunks := chunks st ++ [chunk_str];
         current_chunk := overlap_buffer;
         current_length := overlap_len |}
    else st in
  {| chunks := chunks st;
     current_chunk := current_chunk st ++ [sentence];
     current_length := current_length st + sentence_len |}.

Definition chunker_init : chunker :=
  {| chunks := []; current_chunk := []; current_length := 0 |}.

Definition flush (st : chunker) : list str :=
  if nonempty (current_chunk st)
  then chunks st ++ [join_sp (current_chunk st)]
  else chunks st.

Definition chunk_text (text : str) (chunk_size overlap : Z) : list str :=
  match text with
  | [] => []
  | _ => flush (fold_left (feed chunk_size overlap) (split_sentences text) chunker_init)
  end.

Definition DEFAULT_CHUNK_SIZE : Z := 500.
Definition DEFAULT_OVERLAP : Z := 50.

(** *** The sentences behind each segment

    The same loop, keeping every emitted segment as the list of sentences
    it was joined from ([chunk_text_groups] below relates the two). *)

Record gchunker := {
  groups : list (list str);
  g_current : list str;
  g_length : Z
}.

Definition gfeed (chunk_size overlap : Z) (st : gchunker) (sentence : str) : gchunker :=
  let sentence_len := len sentence in
  let st :=
    if (g_length st + sentence_len >? chunk_size) && nonempty (g_current st)
    then
      let '(overlap_buffer, overlap_len) := overlap_seed overlap (g_current st) in
      {| groups := groups st ++ [g_current st];
         g_current := overlap_buffer;
         g_length := overlap_len |}
    else st in
  {| groups := groups st;
     g_current := g_current st ++ [sentence];
     g_length := g_length st + sentence_len |}.

Definition gchunker_init : gchunker :=
  {| groups := []; g_current := []; g_length := 0 |}.

Definition gflush (st : gchunker) : list (list str) :=
  if nonempty (g_current st) then groups st ++ [g_current st] else groups st.

Definition chunk_groups (text : str) (chunk_size overlap : Z) : list (list str) :=
  match text with
  | [] => []
  | _ => gflush (fold_left (gfeed chunk_size overlap) (split_sentences text) gchunker_init)
  end.

(** The length the loop tracks: the sentences' lengths, without the
    spaces [join] puts between them. *)
Fixpoint total_len (g : list str) : Z :=
  match g with
  | [] => 0
  | s :: r => len s + total_len r
  end.

(** ** [utils.extract_metadata] and [utils.create_document_chunks] *)

(** A document of the loader: a dict whose keys may be absent
    ([doc.get(key, default)]). *)
Record Document := {
  doc_content : option str;
  doc_filename : option str;
  doc_file_type : option str
}.

(** The dict [extract_metadata] returns. *)
Record Metadata := {
  filename : str;
  file_type : str;
  date_processed : str;
  word_count : Z
}.

(** The per-chunk copy of it, with the key [chunk_index] added. *)
Record ChunkMetadata := {
  cm_base : Metadata;
  chunk_index : Z
}.

Record Chunk := {
  text : str;
  metadata : ChunkMetadata
}.

(** [len(content.split())]: the number of maximal runs of
    non-whitespace characters. *)
Fixpoint count_words (in_word : bool) (s : str) : Z :=
  match s with
  | [] => 0
  | c :: r =>
      if is_space c then count_words false r
      else (if in_word then 0 else 1) + count_words true r
  end.

Definition get_default (o : option str) (default : str) : str :=
  match o with Some v => v | None => default end.

(** [now] is [datetime.now().isoformat()], read from the clock by the
    caller. *)
Definition extract_metadata (now : str) (doc : Document) : Metadata :=
  let content := get_default (doc_content doc) [] in
  {| filename := get_default (doc_filename doc) (py "unknown");
     file_type := get_default (doc_file_type doc) (py "unknown");
     date_processed := now;
     word_count := if nonempty content then count_words false content else 0 |}.

Fixpoint enumerate_from {A} (i : Z) (l : list A) : list (Z * A) :=
  match l with
  | [] => []
  | x :: r => (i, x) :: enumerate_from (i + 1) r
  end.

Definition enumerate {A} (l : list A) : list (Z * A) := enumerate_from 0 l.

Definition create_document_chunks (now : str) (doc : Document) : list Chunk :=
  let raw_content := get_default (doc_content doc) [] in
  match raw_content with
  | [] => []
  | _ =>
      let cleaned_content := clean_text raw_content in
      let metadata := extract_metadata now doc in
      let text_chunks := chunk_text cleaned_content DEFAULT_CHUNK_SIZE DEFAULT_OVERLAP in
      map (fun '(i, chunk) =>
             {| text := chunk;
                metadata := {| cm_base := metadata; chunk_index := i |} |})
          (enumerate text_chunks)
  end.

(** The indexing loop of [app.py]: every loaded document is chunked in
    turn and the chunks are gathered in one list.  Each document comes
    with the clock reading of its own [create_document_chunks] call. *)
Definition collect_chunks (documents : list (str * Document)) : list Chunk :=
flat_map (fun d => create_document_chunks (fst d) (snd d)) documents.

(** * Exceptions, results and the outside world *)

Inductive exn :=
| ValueError (msg : str)
| KeyError (key : str)
| IndexError (msg : str)
| TypeError (msg : str)
| AttributeError (msg : str)
| OtherException (msg : str).

(** [repr] of a key or template name free of quotes and escapes. *)
Definition repr (s : str) : str := py "'" ++ s ++ py "'".

(** [str(e)] *)
Definition exn_str (e : exn) : str :=
  match e with
  | KeyError key => repr key
  | ValueError msg | IndexError msg | TypeError msg
  | AttributeError msg | OtherException msg => msg
  end.

Inductive result (A : Type) :=
| Ok (a : A)
| Raise (e : exn).
Arguments Ok {A} a.
Arguments Raise {A} e.

Inductive log_level := INFO | WARNING | ERROR.
Definition log_record : Type := log_level * str.

(** What [collection.query] returns: one inner list per query
    embedding; Chroma leaves a field it was not asked for at [None]. *)
Record QueryResult (distance : Type) := {
  q_ids : list (list str);
  q_documents : option (list (list str));
  q_metadatas : option (list (list ChunkMetadata));
  q_distances : option (list (list distance))
}.
Arguments q_ids {distance}.
Arguments q_documents {distance}.
Arguments q_metadatas {distance}.
Arguments q_distances {distance}.

(** The external collaborators.  [Store] is the content of the
    persistent collection, [Ext] everything else outside the process
    (network, model sampling); the embedding and chat models cannot touch
    the store.  Each call may fail and may change the state it works on,
    also when it fails. *)
Class Collaborators := {
  Store : Type;
  Ext : Type;
  vector : Type;
  distance : Type;
  embed_documents : list str -> Ext -> result (list vector) * Ext;
  embed_query : str -> Ext -> result vector * Ext;
  (* collection.upsert(documents, embeddings, metadatas, ids) *)
  collection_upsert :
    list str -> list vector -> list ChunkMetadata -> list str ->
    Store -> result unit * Store;
  (* collection.query(query_embeddings=[v], n_results) *)
  collection_query : vector -> Z -> Store -> result (QueryResult distance) * Store;
  (* llm.invoke(prompt).content *)
  llm_invoke : str -> Ext -> result str * Ext
}.

Section World.
Context {C : Collaborators}.

Record world := {
  store : Store;
  ext : Ext;
  log : list log_record
}.

(** Computations that read and change the world and may raise. *)
Definition M (A : Type) : Type := world -> result A * world.

Definition ret {A} (a : A) : M A := fun w => (Ok a, w).

Definition raise {A} (e : exn) : M A := fun w => (Raise e, w).

Definition bind {A B} (c : M A) (k : A -> M B) : M B :=
  fun w =>
    match c w with
    | (Ok a, w') => k a w'
    | (Raise e, w') => (Raise e, w')
    end.

(** [try: body / except Exception as e: handler(e)] *)
Definition try_except {A} (body : M A) (handler : exn -> M A) : M A :=
  fun w =>
    match body w with
    | (Ok a, w') => (Ok a, w')
    | (Raise e, w') => handler e w'
    end.

Definition lift {A} (r : result A) : M A := fun w => (r, w).

Definition on_ext {A} (f : Ext -> result A * Ext) : M A :=
  fun w =>
    let '(r, x) := f (ext w) in
    (r, {| store := store w; ext := x; log := log w |}).

Definition on_store {A} (f : Store -> result A * Store) : M A :=
  fun w =>
    let '(r, s) := f (store w) in
    (r, {| store := s; ext := ext w; log := log w |}).

Definition logger (level : log_level) (msg : str) : M unit :=
  fun w => (Ok tt, {| store := store w; ext := ext w; log := log w ++ [(level, msg)] |}).
End World.

Declare Scope py_scope.
Delimit Scope py_scope with py.
Notation "x <- c ;; k" := (bind c (fun x => k))
  (at level 100, c at next level, right associativity) : py_scope.
Notation "c ;;; k" := (bind c (fun _ => k))
  (at level 100, right associativity) : py_scope.

Local Open Scope py_scope.

(** * [rag_pipeline.RAGPipeline] *)

Inductive collection_handle := CollectionHandle.

(** [self.collection] is [None] when [setup_vectorstore] failed. *)
Record RAGPipeline := {
  collection_name : str;
  collection : option collection_handle
}.

Record SearchResult {C : Collaborators} := {
  sr_id : str;
  sr_text : str;
  sr_metadata : ChunkMetadata;
  sr_distance : option distance
}.

(** [str(i)] for an [int] *)
Definition str_of_int (i : Z) : str := py (NilZero.string_of_int (Z.to_int i)).

(** [f"{chunk['metadata']['filename']}_{chunk['metadata']['chunk_index']}"] *)
Definition chunk_id (chunk : Chunk) : str :=
  filename (cm_base (metadata chunk)) ++ py "_" ++ str_of_int (chunk_index (metadata chunk)).

Definition subscript {A} (l : list A) (i : nat) : result A :=
  match nth_error l i with
  | Some a => Ok a
  | None => Raise (IndexError (py "list index out of range"))
  end.

Definition subscript_opt {A} (o : option (list A)) (i : nat) : result A :=
  match o with
  | Some l => subscript l i
  | None => Raise (TypeError (py "'NoneType' object is not subscriptable"))
  end.

Definition rbind {A B} (r : result A) (k : A -> result B) : result B :=
  match r with
  | Ok a => k a
  | Raise e => Raise e
  end.

Fixpoint collect {A B} (f : A -> result B) (l : list A) : result (list B) :=
  match l with
  | [] => Ok []
  | a :: r => rbind (f a) (fun b => rbind (collect f r) (fun bs => Ok (b :: bs)))
  end.

Section RAG.
Context {C : Collaborators}.

Definition create_embeddings (texts : list str) : M (list vector) :=
  try_except
    (match texts with
     | [] => ret []
     | _ => on_ext (embed_documents texts)
     end)
    (fun e =>
       logger ERROR (py "Failed to create embeddings: " ++ exn_str e) ;;;
       ret []).

(** [self.collection.<method>(...)] *)
Definition with_collection {A} (self : RAGPipeline) (method : str)
    (call : Store -> result A * Store) : M A :=
  match collection self with
  | Some _ => on_store call
  | None =>
      raise (AttributeError
               (py "'NoneType' object has no attribute " ++ repr method))
  end.

Definition add_documents (self : RAGPipeline) (chunks : list Chunk) : M unit :=
  match chunks with
  | [] => logger WARNING (py "No chunks to add.")
  | _ =>
      try_except
        (let texts := map text chunks in
         let metadatas := map metadata chunks in
         let ids := map chunk_id chunks in
         embeddings <- create_embeddings texts ;;
         match embeddings with
         | [] =>
             logger ERROR (py "Failed to generate embeddings. Aborting add_documents.")
         | _ =>
             with_collection self (py "upsert")
               (collection_upsert texts embeddings metadatas ids) ;;;
             logger INFO
               (py "Added/Updated " ++ str_of_int (len chunks)
                ++ py " chunks in collection " ++ repr (collection_name self) ++ py ".")
         end)
        (fun e =>
           logger ERROR (py "Failed to add documents to vector store: " ++ exn_str e))
  end.

(** One turn of the loop that formats the results. *)
Definition format_row (results : QueryResult distance) (i : nat) : result SearchResult :=
  rbind (rbind (subscript (q_ids results) 0) (fun l => subscript l i)) (fun id =>
  rbind (rbind (subscript_opt (q_documents results) 0) (fun l => subscript l i)) (fun doc =>
  rbind (rbind (subscript_opt (q_metadatas results) 0) (fun l => subscript l i)) (fun meta =>
  rbind (match q_distances results with
         | Some ((_ :: _) as ds) =>
             rbind (rbind (subscript ds 0) (fun l => subscript l i)) (fun d => Ok (Some d))
         | _ => Ok None
         end) (fun dist =>
  Ok {| sr_id := id; sr_text := doc; sr_metadata := meta; sr_distance := dist |})))).

Definition format_results (results : QueryResult distance) : result (list SearchResult) :=
  match q_ids results with
  | [] => Ok []
  | ids0 :: _ => collect (format_row results) (seq 0 (length ids0))
  end.

Definition search_similar (self : RAGPipeline) (query : str) (n_results : Z)
  : M (list SearchResult) :=
  try_except
    (query_embedding <- on_ext (embed_query query) ;;
     results <- with_collection self (py "query")
                  (collection_query query_embedding n_results) ;;
     lift (format_results results))
    (fun e =>
       logger ERROR (py "Search failed: " ++ exn_str e) ;;;
       ret []).
End RAG.

(** ** The collection's life cycle

    The Chroma client of the pipeline: creating, deleting and counting
    the named collection, each acting on the store. *)
Class VectorStoreClient {C : Collaborators} := {
  (* client.get_or_create_collection(name=...) *)
  client_get_or_create_collection : str -> Store -> result unit * Store;
  (* client.delete_collection(name) *)
  client_delete_collection : str -> Store -> result unit * Store;
  (* collection.count() *)
  collection_count : Store -> result Z * Store
}.

Section Lifecycle.
Context {C : Collaborators} {V : VectorStoreClient}.

Local Open Scope py_scope.

(** [self.collection] is assigned only when the client call returned. *)
Definition setup_vectorstore (self : RAGPipeline) : M RAGPipeline :=
  try_except
    (on_store (client_get_or_create_collection (collection_name self)) ;;;
     logger INFO
       (py "Vector store collection " ++ repr (collection_name self) ++ py " ready.") ;;;
     ret {| collection_name := collection_name self;
            collection := Some CollectionHandle |})
    (fun e =>
       logger ERROR (py "Failed to setup vector store: " ++ exn_str e) ;;;
       ret self).

(** The inner [try] of [reset_vectorstore], with its two handlers. *)
Definition delete_collection (self : RAGPipeline) : M unit :=
  try_except
    (on_store (client_delete_collection (collection_name self)) ;;;
     logger INFO (py "Collection " ++ repr (collection_name self) ++ py " deleted."))
    (fun e =>
       match e with
       | ValueError _ =>
           logger INFO
             (py "Collection " ++ repr (collection_name self)
              ++ py " did not exist, skipping delete.")
       | _ =>
           logger WARNING
             (py "Error deleting collection: " ++ exn_str e
              ++ py ". Attempting to recreate anyway.")
       end).

Definition reset_vectorstore (self : RAGPipeline) : M RAGPipeline :=
  try_except
    (delete_collection self ;;;
     self' <- setup_vectorstore self ;;
     logger INFO
       (py "Collection " ++ repr (collection_name self) ++ py " reset successfully.") ;;;
     ret self')
    (fun e =>
       logger ERROR (py "Failed to reset vector store: " ++ exn_str e) ;;;
       ret self).

Definition get_collection_count (self : RAGPipeline) : M Z :=
  try_except
    (match collection self with
     | Some _ => on_store collection_count
     | None => ret 0
     end)
    (fun e =>
       logger ERROR (py "Failed to get collection count: " ++ exn_str e) ;;;
       ret 0).
End Lifecycle.

(** * [prompt_templates] *)

(** A template as [str.format] parses it: literal text and replacement
    fields.  The four templates of the repository hold plain [{name}]
    fields only, and this type has no other: positional fields,
    attribute or index lookups, conversions and format specifications,
    on which [str.format] raises other exceptions than [KeyError], are
    outside it. *)
Inductive piece :=
| Lit (s : str)
| Field (name : string).

Definition template := list piece.

(** [template.format] applied to the keyword arguments [kwargs], for a
    template of plain fields; the first field missing from them raises
    [KeyError]. *)
Fixpoint format (t : template) (kwargs : gmap string str) : result str :=
  match t with
  | [] => Ok []
  | Lit s :: r => rbind (format r kwargs) (fun rest => Ok (s ++ rest))
  | Field name :: r =>
      match (kwargs !! name : option str) with
      | Some v => rbind (format r kwargs) (fun rest => Ok (v ++ rest))
      | None => Raise (KeyError (py name))
      end
  end.

(** The four module constants; they are the renderer's configuration
    and a parameter of what follows. *)
Record prompt_table := {
  RESUME_BULLET_PROMPT : template;
  COVER_LETTER_PROMPT : template;
  ATS_ANALYSIS_PROMPT : template;
  LINKEDIN_MESSAGE_PROMPT : template
}.

(** The dict [prompts] of [get_prompt], in insertion order. *)
Definition prompts (T : prompt_table) : list (string * template) :=
  [("resume_bullets", RESUME_BULLET_PROMPT T);
   ("cover_letter", COVER_LETTER_PROMPT T);
   ("ats_analysis", ATS_ANALYSIS_PROMPT T);
   ("linkedin_message", LINKEDIN_MESSAGE_PROMPT T)]%string.

Fixpoint dict_get {V} (d : list (string * V)) (key : string) : option V :=
  match d with
  | [] => None
  | (k, v) :: r => if String.eqb k key then Some v else dict_get r key
  end.

(** [str(list(d.keys()))] *)
Definition keys_str {V} (d : list (string * V)) : str :=
  py "[" ++ join (py ", ") (map (fun kv => repr (py (fst kv))) d) ++ py "]".

Definition get_prompt (T : prompt_table) (prompt_type : string)
    (kwargs : gmap string str) : result str :=
  match dict_get (prompts T) prompt_type with
  | None =>
      Raise (ValueError (py "Unknown prompt type: " ++ py prompt_type
                         ++ py ". Valid types: " ++ keys_str (prompts T)))
  | Some template =>
      match format template kwargs with
      | Raise (KeyError key) =>
          Raise (ValueError (py "Missing required argument for " ++ py prompt_type
                             ++ py " prompt: " ++ exn_str (KeyError key)))
      | r => r
      end
  end.

(** The text of the repository's templates.  The prose before the first
    and after the last placeholder of each is not spelled out. *)
Record prose := {
  resume_head : str; resume_tail : str;
  cover_head : str; cover_tail : str;
  ats_head : str; ats_tail : str;
  linkedin_head : str; linkedin_tail : str
}.

Definition nl : str := [NEWLINE].

Definition source_templates (P : prose) : prompt_table :=
  {| RESUME_BULLET_PROMPT :=
       [Lit (resume_head P); Field "job_description";
        Lit (nl ++ nl ++ py "**Candidate's Full Resume Content**:" ++ nl);
        Field "context";
        Lit (nl ++ nl ++ py "**Candidate's Name**: "); Field "name";
        Lit (resume_tail P)];
     COVER_LETTER_PROMPT :=
       [Lit (cover_head P); Field "job_description";
        Lit (nl ++ nl ++ py "**Company Name**: "); Field "company_name";
        Lit (nl ++ nl ++ py "**Role Title**: "); Field "role_title";
        Lit (nl ++ nl ++ py "**Candidate's Relevant Experience/Context**:" ++ nl);
        Field "context";
        Lit (cover_tail P)];
     ATS_ANALYSIS_PROMPT :=
       [Lit (ats_head P); Field "job_description";
        Lit (nl ++ nl ++ py "**Candidate's Resume Content**:" ++ nl);
        Field "resume_content";
        Lit (ats_tail P)];
     LINKEDIN_MESSAGE_PROMPT :=
       [Lit (linkedin_head P); Field "job_description";
        Lit (nl ++ nl ++ py "**Company Name**: "); Field "company_name";
        Lit (nl ++ nl ++ py "**Role Title**: "); Field "role_title";
        Lit (nl ++ nl ++ py "**One Key Achievement/Qualification**:" ++ nl);
        Field "achievement";
        Lit (linkedin_tail P)] |}.

(** * [generation_chains.JobApplicationGenerator] *)

Record JobApplicationGenerator := {
  rag_pipeline : RAGPipeline
}.

(** The dict [generate_all] returns. *)
Record GenerationResults := {
  resume_bullets : str;
  cover_letter : str;
  ats_analysis : str;
  linkedin_message : str
}.

Fixpoint str_eqb (a b : str) : bool :=
  match a, b with
  | [], [] => true
  | x :: a', y :: b' => (x =? y)%N && str_eqb a' b'
  | _, _ => false
  end.

Definition NO_CONTEXT : str := py "No relevant background information available.".
Definition CONTEXT_ERROR : str := py "Error retrieving background information.".
Definition RESUME_PLACEHOLDER : str := py "Resume content not provided for ATS analysis.".

(** [f"Error: {str(e)}"] *)
Definition error_text (e : exn) : str := py "Error: " ++ exn_str e.

Definition kw (l : list (string * str)) : gmap string str := list_to_map l.

Section Generator.
Context {C : Collaborators}.
Variable T : prompt_table.
Variable self : JobApplicationGenerator.

Definition _retrieve_context (query : str) (n_results : Z) : M str :=
  try_except
    (results <- search_similar (rag_pipeline self) query n_results ;;
     match results with
     | [] => ret NO_CONTEXT
     | _ =>
         let context_parts := map sr_text results in
         ret (join (nl ++ nl) context_parts)
     end)
    (fun e => ret CONTEXT_ERROR).

(** [response = self.llm.invoke(prompt); result = response.content] *)
Definition invoke_llm (prompt : str) : M str := on_ext (llm_invoke prompt).

(** Each operation first builds its prompt, then calls the model, in
    one [try] block. *)
Definition resume_bullets_prompt (job_description candidate_name : str) : M str :=
  context <- _retrieve_context job_description 5 ;;
  lift (get_prompt T "resume_bullets"
          (kw [("job_description", job_description); ("context", context);
               ("name", candidate_name)]%string)).

Definition generate_resume_bullets (job_description candidate_name : str) : M str :=
  try_except
    (prompt <- resume_bullets_prompt job_description candidate_name ;;
     invoke_llm prompt)
    (fun e => ret (error_text e)).

Definition cover_letter_prompt (job_description company_name role_title : str) : M str :=
  context <- _retrieve_context job_description 5 ;;
  lift (get_prompt T "cover_letter"
          (kw [("job_description", job_description); ("company_name", company_name);
               ("role_title", role_title); ("context", context)]%string)).

Definition generate_cover_letter (job_description company_name role_title : str) : M str :=
  try_except
    (prompt <- cover_letter_prompt job_description company_name role_title ;;
     invoke_llm prompt)
    (fun e => ret (error_text e)).

Definition ats_analysis_prompt (job_description resume_content : str) : M str :=
  resume_content <-
    (if negb (nonempty resume_content)
        || str_eqb (strip resume_content) []
        || str_eqb resume_content RESUME_PLACEHOLDER
     then _retrieve_context
            (py "resume work experience projects skills education background") 10
     else ret resume_content) ;;
  lift (get_prompt T "ats_analysis"
          (kw [("job_description", job_description);
               ("resume_content", resume_content)]%string)).

Definition generate_ats_analysis (job_description resume_content : str) : M str :=
  try_except
    (prompt <- ats_analysis_prompt job_description resume_content ;;
     invoke_llm prompt)
    (fun e => ret (error_text e)).

Definition linkedin_message_prompt (job_description company_name role_title : str) : M str :=
  results <- search_similar (rag_pipeline self) job_description 1 ;;
  let achievement :=
    match results with
    | r :: _ => sr_text r
    | [] => py "relevant experience in the field"
    end in
  lift (get_prompt T "linkedin_message"
          (kw [("job_description", job_description); ("company_name", company_name);
               ("role_title", role_title); ("achievement", achievement)]%string)).

Definition generate_linkedin_message (job_description company_name role_title : str) : M str :=
  try_except
    (prompt <- linkedin_message_prompt job_description company_name role_title ;;
     invoke_llm prompt)
    (fun e => ret (error_text e)).

Definition generate_all
    (job_description company_name role_title candidate_name resume_content : str)
  : M GenerationResults :=
  bullets <- generate_resume_bullets job_description candidate_name ;;
  letter <- generate_cover_letter job_description company_name role_title ;;
  ats <- generate_ats_analysis job_description resume_content ;;
  message <- generate_linkedin_message job_description company_name role_title ;;
  ret {| resume_bullets := bullets;
         cover_letter := letter;
         ats_analysis := ats;
         linkedin_message := message |}.
End Generator.

Local Close Scope py_scope.

(** * [document_loader.DocumentLoader]

    The file system and the libraries the loader reads through: the
    [os.path] functions, [str.lower], and the three readers (the pages
    of a PDF, the paragraphs of a DOCX, the content of a text file),
    each of which may raise.  The loader's logger calls are left out. *)
Class LoaderEnv := {
  path_exists : str -> bool;
  listdir : str -> result (list str);
  isfile : str -> bool;
  path_join : str -> str -> str;
  basename : str -> str;
  (* os.path.splitext(p)[1] *)
  splitext_ext : str -> str;
  lower : str -> str;
  (* [page.extract_text() for page in pypdf.PdfReader(file).pages] *)
  pdf_pages : str -> result (list str);
  (* [paragraph.text for paragraph in docx.Document(path).paragraphs] *)
  docx_paragraphs : str -> result (list str);
  (* open(path, 'r', encoding='utf-8').read() *)
  read_text : str -> result str
}.

Record DocumentLoader := {
  data_folder : str
}.

Fixpoint starts_with (s prefix : str) : bool :=
  match prefix, s with
  | [], _ => true
  | p :: prefix', c :: s' => (c =? p)%N && starts_with s' prefix'
  | _ :: _, [] => false
  end.

(** [s.endswith(suffix)] *)
Definition ends_with (s suffix : str) : bool := starts_with (rev s) (rev suffix).

Section Loader.
Context {E : LoaderEnv}.

Definition load_pdf (file_path : str) : str :=
  match pdf_pages file_path with
  | Ok pages => strip (concat (map (fun page => page ++ [NEWLINE]) pages))
  | Raise _ => []
  end.

Definition load_docx (file_path : str) : str :=
  match docx_paragraphs file_path with
  | Ok paragraphs => strip (join [NEWLINE] paragraphs)
  | Raise _ => []
  end.

Definition load_txt (file_path : str) : str :=
  match read_text file_path with
  | Ok content => strip content
  | Raise _ => []
  end.

Definition loaded (content filename file_type : str) : Document :=
  {| doc_content := Some content;
     doc_filename := Some filename;
     doc_file_type := Some file_type |}.

Definition load_document (file_path : str) : Document :=
  let filename := basename file_path in
  let file_ext := lower (splitext_ext filename) in
  if str_eqb file_ext (py ".pdf") then
    loaded (load_pdf file_path) filename (tl file_ext)
  else if str_eqb file_ext (py ".docx") then
    loaded (load_docx file_path) filename (tl file_ext)
  else if str_eqb file_ext (py ".txt") then
    loaded (load_txt file_path) filename (tl file_ext)
  else loaded [] filename (py "unknown").

Definition supported_name (filename : str) : bool :=
  ends_with (lower filename) (py ".pdf")
  || ends_with (lower filename) (py ".docx")
  || ends_with (lower filename) (py ".txt").

(** One turn of the loop over the directory: the documents appended. *)
Definition load_entry (self : DocumentLoader) (filename : str) : list Document :=
  let file_path := path_join (data_folder self) filename in
  if isfile file_path then
    if supported_name filename then
      let doc_data := load_document file_path in
      if nonempty (get_default (doc_content doc_data) []) then [doc_data] else []
    else []
  else [].

Definition load_all_documents (self : DocumentLoader) : result (list Document) :=
  if negb (path_exists (data_folder self)) then Ok []
  else rbind (listdir (data_folder self))
         (fun names => Ok (flat_map (load_entry self) names)).
End Loader.

(** * Properties of [clean_text] *)

Module CleanText.

(** The shape of a cleaned text: every whitespace character is a plain
    space and no two of them are adjacent.  [prev] tells that the
    character before the text is whitespace. *)
Fixpoint spaced (prev : bool) (s : str) : bool :=
  match s with
  | [] => true
  | c :: r =>
      if is_space c then (c =? SPACE)%N && negb prev && spaced true r
      else spaced false r
  end.

Definition starts_clean (s : str) : Prop :=
  match s with
  | c :: _ => is_space c = false
  | [] => True
  end.

Definition kept (c : char) : Prop := is_kept c = true.

Lemma newline_is_space c : is_newline c = true -> is_space c = true.
Proof.
  unfold is_newline. intros H. apply N.eqb_eq in H. subst c. reflexivity.
Qed.

Lemma collapse_spaced s : forall b, spaced b (collapse is_space b s) = true.
Proof.
  induction s as [|c r IH]; intros b; simpl; [reflexivity|].
  destruct (is_space c) eqn:Hc.
  - destruct b; simpl; [apply IH|]. rewrite IH. reflexivity.
  - simpl. rewrite Hc. apply IH.
Qed.

Lemma spaced_collapse_fix s : forall b,
  spaced b s = true -> collapse is_space b s = s.
Proof.
  induction s as [|c r IH]; intros b H; simpl in *; [reflexivity|].
  destruct (is_space c) eqn:Hc.
  - apply andb_prop in H as [H Hr]. apply andb_prop in H as [Hsp Hb].
    apply N.eqb_eq in Hsp. destruct b; [discriminate|].
    rewrite (IH true Hr). now subst c.
  - now rewrite (IH false H).
Qed.

Lemma spaced_no_newline s : forall b b',
  spaced b s = true -> collapse is_newline b' s = s.
Proof.
  induction s as [|c r IH]; intros b b' H; simpl in *; [reflexivity|].
  destruct (is_newline c) eqn:Hn.
  - rewrite (newline_is_space c Hn) in H.
    apply andb_prop in H as [H _]. apply andb_prop in H as [Hsp _].
    apply N.eqb_eq in Hsp. subst c. discriminate.
  - f_equal. destruct (is_space c).
    + apply andb_prop in H as [_ Hr]. now apply IH with (b := true).
    + now apply IH with (b := false).
Qed.

Lemma spaced_weaken s : spaced true s = true -> spaced false s = true.
Proof.
  destruct s as [|c r]; simpl; [easy|].
  destruct (is_space c); [|easy]. now rewrite andb_false_r.
Qed.

Lemma lstrip_spaced s : forall b, spaced b s = true -> spaced false (lstrip s) = true.
Proof.
  induction s as [|c r IH]; intros b H; simpl in *; [reflexivity|].
  destruct (is_space c) eqn:Hc.
  - apply andb_prop in H as [_ Hr]. now apply IH with (b := true).
  - simpl. now rewrite Hc.
Qed.

Lemma rstrip_spaced s : forall b, spaced b s = true -> spaced b (rstrip s) = true.
Proof.
  induction s as [|c r IH]; intros b H; simpl in *; [reflexivity|].
  destruct (is_space c) eqn:Hc.
  - apply andb_prop in H as [H Hr]. specialize (IH true Hr).
    destruct (rstrip r) as [|x xs]; [reflexivity|].
    cbn [spaced]. rewrite Hc, H. exact IH.
  - specialize (IH false H).
    destruct (rstrip r) as [|x xs]; cbn [spaced]; rewrite Hc; [reflexivity|exact IH].
Qed.

Lemma lstrip_starts_clean s : starts_clean (lstrip s).
Proof.
  induction s as [|c r IH]; simpl; [exact I|].
  destruct (is_space c) eqn:Hc; [exact IH|exact Hc].
Qed.

Lemma rstrip_starts_clean s : starts_clean s -> starts_clean (rstrip s).
Proof.
  destruct s as [|c r]; simpl; [easy|]. intros Hc.
  destruct (rstrip r); [rewrite Hc|]; exact Hc.
Qed.

Lemma lstrip_fix s : starts_clean s -> lstrip s = s.
Proof. destruct s as [|c r]; simpl; [easy|]. now intros ->. Qed.

Lemma rstrip_idem s : rstrip (rstrip s) = rstrip s.
Proof.
  induction s as [|c r IH]; simpl; [reflexivity|].
  destruct (rstrip r) as [|x xs] eqn:Hr.
  - destruct (is_space c) eqn:Hc; simpl; [reflexivity|now rewrite Hc].
  - change (rstrip (c :: x :: xs)) with
      (match rstrip (x :: xs) with
       | [] => if is_space c then [] else [c]
       | r' => c :: r'
       end).
    now rewrite IH.
Qed.

(** [rstrip] is [lstrip] seen from the other end. *)
Lemma rstrip_snoc s c :
  rstrip (s ++ [c]) = if is_space c then rstrip s else s ++ [c].
Proof.
  induction s as [|x s IH]; simpl; [now destruct (is_space c)|].
  rewrite IH. destruct (is_space c); [reflexivity|].
  now destruct s.
Qed.

Lemma rstrip_rev s : rstrip s = rev (lstrip (rev s)).
Proof.
  induction s as [|c s IH] using rev_ind; [reflexivity|].
  rewrite rstrip_snoc, rev_app_distr. simpl.
  destruct (is_space c); [exact IH|].
  simpl. now rewrite rev_involutive.
Qed.

Lemma strip_fix s : strip (strip s) = strip s.
Proof.
  unfold strip.
  rewrite (lstrip_fix (rstrip (lstrip s))).
  - apply rstrip_idem.
  - apply rstrip_starts_clean, lstrip_starts_clean.
Qed.

Lemma strip_spaced s b : spaced b s = true -> spaced false (strip s) = true.
Proof. intros H. apply rstrip_spaced. now apply lstrip_spaced with (b := b). Qed.

Lemma collapse_kept p s : forall b, Forall kept s -> Forall kept (collapse p b s).
Proof.
  induction s as [|c r IH]; intros b H; simpl; [constructor|].
  inversion H as [|? ? Hc Hr]; subst.
  destruct (p c); [destruct b|]; auto.
  constructor; [reflexivity|auto].
Qed.

Lemma lstrip_kept s : Forall kept s -> Forall kept (lstrip s).
Proof.
  induction 1 as [|c r Hc Hr IH]; simpl; [constructor|].
  destruct (is_space c); auto.
Qed.

Lemma rstrip_kept s : Forall kept s -> Forall kept (rstrip s).
Proof.
  induction 1 as [|c r Hc Hr IH]; simpl; [constructor|].
  destruct (rstrip r); [destruct (is_space c)|]; auto.
Qed.

Lemma delete_not_kept s : Forall kept (delete_not is_kept s).
Proof.
  unfold delete_not. induction s as [|c r IH]; simpl; [constructor|].
  destruct (is_kept c) eqn:Hc; [constructor|]; assumption.
Qed.

Lemma kept_delete_fix s : Forall kept s -> delete_not is_kept s = s.
Proof.
  unfold delete_not. induction 1 as [|c r Hc Hr IH]; simpl; [reflexivity|].
  unfold kept in Hc. rewrite Hc. now f_equal.
Qed.

(** What the four passes leave behind. *)
Definition cleaned (s : str) : Prop :=
  Forall kept s /\ spaced false s = true /\ strip s = s.

Lemma clean_text_cleaned s : cleaned (clean_text s).
Proof.
  destruct s as [|c r]; [repeat split; constructor|].
  unfold clean_text, sub_runs.
  set (t := collapse is_space false _).
  assert (Hk : Forall kept t) by apply collapse_kept, delete_not_kept.
  assert (Hs : spaced false t = true) by apply collapse_spaced.
  repeat split.
  - now apply rstrip_kept, lstrip_kept.
  - now apply strip_spaced with (b := false).
  - apply strip_fix.
Qed.

Lemma cleaned_fix s : cleaned s -> clean_text s = s.
Proof.
  intros (Hk & Hs & Ht). destruct s as [|c r]; [reflexivity|].
  unfold clean_text, sub_runs.
  rewrite (spaced_no_newline _ false false Hs).
  rewrite (kept_delete_fix _ Hk).
  rewrite (spaced_collapse_fix _ false Hs).
  exact Ht.
Qed.

Example clean_text_example :
  clean_text (py "  Hello,   world!  (2024) ") = py "Hello, world! 2024".
Proof. reflexivity. Qed.

Example clean_text_empty : clean_text [] = [].
Proof. reflexivity. Qed.

(** ** C10 : [clean_text] is idempotent: cleaning an already cleaned text
    changes nothing, for every input string. *)
Theorem clean_text_idempotent (s : str) :
  clean_text (clean_text s) = clean_text s.
Proof. apply cleaned_fix, clean_text_cleaned. Qed.

(** ** C4 : the apostrophe is not in the class the second substitution
    keeps, although the comment above it lists it: a contraction loses
    its apostrophe. *)
Theorem clean_text_drops_apostrophe :
  clean_text (py "don't stop") = py "dont stop"
  /\ is_kept 39%N = false.
Proof. split; reflexivity. Qed.

End CleanText.

(** * Properties of [chunk_text] *)

Module ChunkText.

Definition erase (g : gchunker) : chunker :=
  {| chunks := map join_sp (groups g);
     current_chunk := g_current g;
     current_length := g_length g |}.

Lemma feed_erase cs ov g s : feed cs ov (erase g) s = erase (gfeed cs ov g s).
Proof.
  unfold feed, gfeed, erase; simpl.
  destruct ((g_length g + len s >? cs) && nonempty (g_current g)); simpl; [|reflexivity].
  destruct (overlap_seed ov (g_current g)) as [buf olen]; simpl.
  now rewrite map_app.
Qed.

Lemma fold_feed_erase cs ov ss : forall g,
  fold_left (feed cs ov) ss (erase g) = erase (fold_left (gfeed cs ov) ss g).
Proof.
  induction ss as [|s ss IH]; intros g; simpl; [reflexivity|].
  now rewrite feed_erase, IH.
Qed.

Lemma flush_erase g : flush (erase g) = map join_sp (gflush g).
Proof.
  unfold flush, gflush, erase; simpl.
  destruct (nonempty (g_current g)); [|reflexivity].
  now rewrite map_app.
Qed.

(** Every segment is the join of its group of sentences. *)
Lemma chunk_text_groups text cs ov :
  chunk_text text cs ov = map join_sp (chunk_groups text cs ov).
Proof.
  unfold chunk_text, chunk_groups. destruct text as [|c r]; [reflexivity|].
  change chunker_init with (erase gchunker_init).
  now rewrite fold_feed_erase, flush_erase.
Qed.

Example split_sentences_example :
  split_sentences (py "Hi.  There! ok? ") = [py "Hi."; py "There!"; py "ok?"; []].
Proof. reflexivity. Qed.

Example chunk_text_empty : chunk_text [] 500 50 = [].
Proof. reflexivity. Qed.

(** *** Lengths *)

Lemma len_app {A} (a b : list A) : len (a ++ b) = len a + len b.
Proof. unfold len. rewrite length_app. lia. Qed.

Lemma len_nonneg {A} (a : list A) : 0 <= len a.
Proof. unfold len. lia. Qed.

Lemma total_len_app a b : total_len (a ++ b) = total_len a + total_len b.
Proof. induction a as [|s a IH]; simpl; lia. Qed.

Lemma total_len_nonneg g : 0 <= total_len g.
Proof. induction g as [|s g IH]; simpl; [lia|]. pose proof (len_nonneg s). lia. Qed.

Lemma len_join_sp g : g <> [] -> len (join_sp g) = total_len g + (len g - 1).
Proof.
  induction g as [|s g IH]; [easy|]. intros _.
  destruct g as [|s' g'].
  - change (join_sp [s]) with s. change (total_len [s]) with (len s + 0).
    change (len [s]) with 1. lia.
  - change (join_sp (s :: s' :: g')) with (s ++ [SPACE] ++ join_sp (s' :: g')).
    rewrite !len_app, IH by easy.
    change (total_len (s :: s' :: g')) with (len s + total_len (s' :: g')).
    change (len [SPACE]) with 1.
    change (len (s :: s' :: g')) with (Z.of_nat (S (length (s' :: g')))).
    generalize (len s) (total_len (s' :: g')). unfold len. lia.
Qed.

Lemma join_app sep a b :
  a <> [] -> b <> [] -> join sep (a ++ b) = join sep a ++ sep ++ join sep b.
Proof.
  induction a as [|s a IH]; [easy|]. intros _ Hb.
  destruct a as [|s' a'].
  - simpl. destruct b; [easy|reflexivity].
  - change (join sep ((s :: s' :: a') ++ b)) with (s ++ sep ++ join sep ((s' :: a') ++ b)).
    rewrite IH by easy.
    change (join sep (s :: s' :: a')) with (s ++ sep ++ join sep (s' :: a')).
    now rewrite <- !app_assoc.
Qed.

(** *** The overlap scan *)

(** The scan returns a suffix of the closed segment, with its length;
    it is empty or shorter than [overlap], and it stops only at a
    sentence that would reach [overlap]. *)
Lemma overlap_scan_spec ov rs : forall buf olen buf' olen',
  olen = total_len buf ->
  (buf = [] \/ total_len buf < ov) ->
  overlap_scan ov rs buf olen = (buf', olen') ->
  olen' = total_len buf'
  /\ (buf' = [] \/ total_len buf' < ov)
  /\ exists pre, rev rs ++ buf = pre ++ buf'
       /\ (pre = [] \/ exists pre' x, pre = pre' ++ [x] /\ ov <= total_len buf' + len x).
Proof.
  induction rs as [|s rs IH]; intros buf olen buf' olen' Hlen Hb H; simpl in H.
  - inversion H; subst. repeat split; auto. exists []. auto.
  - destruct (olen + len s <? ov) eqn:Hlt.
    + apply Z.ltb_lt in Hlt.
      apply IH in H; [|simpl; lia|right; simpl; lia].
      destruct H as (H1 & H2 & pre & Hp & Hmax).
      repeat split; auto. exists pre. split; [|exact Hmax].
      simpl. rewrite <- app_assoc. exact Hp.
    + apply Z.ltb_ge in Hlt. inversion H; subst.
      repeat split; auto. exists (rev (s :: rs)). split; [reflexivity|].
      right. exists (rev rs), s. split; [reflexivity|lia].
Qed.

Lemma overlap_seed_spec ov g seed olen :
  overlap_seed ov g = (seed, olen) ->
  olen = total_len seed
  /\ (seed = [] \/ total_len seed < ov)
  /\ exists pre, g = pre ++ seed
       /\ (pre = [] \/ exists pre' x, pre = pre' ++ [x] /\ ov <= total_len seed + len x).
Proof.
  unfold overlap_seed. intros H.
  apply overlap_scan_spec in H; [|reflexivity|now left].
  destruct H as (H1 & H2 & pre & Hp & Hmax).
  rewrite app_nil_r, rev_involutive in Hp. eauto 10.
Qed.

(** A segment shorter than [overlap] is carried over whole. *)
Lemma overlap_scan_all ov rs : forall buf olen,
  olen = total_len buf ->
  total_len buf + total_len rs < ov ->
  fst (overlap_scan ov rs buf olen) = rev rs ++ buf.
Proof.
  induction rs as [|s rs IH]; intros buf olen Hlen Hlt; simpl; [reflexivity|].
  simpl in Hlt. pose proof (total_len_nonneg rs).
  destruct (olen + len s <? ov) eqn:Hc.
  - rewrite IH; [now rewrite <- app_assoc|simpl; lia|simpl; lia].
  - apply Z.ltb_ge in Hc. lia.
Qed.

Lemma total_len_rev g : total_len (rev g) = total_len g.
Proof.
  induction g as [|s g IH]; simpl; [reflexivity|].
  rewrite total_len_app. simpl. lia.
Qed.

Lemma overlap_seed_all ov g : total_len g < ov -> fst (overlap_seed ov g) = g.
Proof.
  intros H. unfold overlap_seed.
  rewrite overlap_scan_all; [|reflexivity|simpl; rewrite total_len_rev; lia].
  now rewrite app_nil_r, rev_involutive.
Qed.

(** *** Loop invariant *)

(** Consecutive elements of a list are related by [R]. *)
Fixpoint chained {A} (R : A -> A -> Prop) (l : list A) : Prop :=
  match l with
  | [] => True
  | a :: t => match t with [] => True | b :: _ => R a b end /\ chained R t
  end.

Lemma chained_snoc {A} (R : A -> A -> Prop) l a b :
  chained R (l ++ [a]) -> R a b -> chained R ((l ++ [a]) ++ [b]).
Proof.
  induction l as [|x l IH]; simpl; [tauto|].
  intros [Hx Hl] Hab. split; [|auto].
  destruct l; exact Hx.
Qed.

Lemma chained_last {A} (R : A -> A -> Prop) l a b :
  chained R (l ++ [a]) -> (forall x, R x a -> R x b) -> chained R (l ++ [b]).
Proof.
  induction l as [|x l IH]; simpl; [tauto|].
  intros [Hx Hl] Hab. split; [|auto].
  destruct l; simpl in *; auto.
Qed.

Lemma chained_init {A} (R : A -> A -> Prop) l a :
  chained R (l ++ [a]) -> chained R l.
Proof.
  induction l as [|x l IH]; simpl; [tauto|].
  intros [Hx Hl]. split; [|auto].
  destruct l; simpl in *; auto.
Qed.

Lemma chained_nth {A} (R : A -> A -> Prop) l : chained R l ->
  forall i a b, nth_error l i = Some a -> nth_error l (S i) = Some b -> R a b.
Proof.
  induction l as [|x l IH]; intros H i a b Ha Hb; [destruct i; discriminate|].
  destruct H as [Hx Hl]. destruct i as [|i].
  - simpl in Ha, Hb. destruct l; [discriminate|]. simpl in Hb. congruence.
  - exact (IH Hl i a b Ha Hb).
Qed.

Section Invariant.
Variables chunk_size overlap : Z.

(** What the loop guarantees of the sentences of a segment: their
    lengths add up to at most [chunk_size], or the segment is the
    seed carried over ([seed], empty or shorter than [overlap])
    followed by the one sentence that made the loop close the
    previous segment. *)
Definition tracked (g : list str) : Prop :=
  g <> [] /\
  (total_len g <= chunk_size
   \/ exists seed s, g = seed ++ [s] /\ (seed = [] \/ total_len seed < overlap)).

(** [g2] starts with the seed of [g1] and goes on with new sentences. *)
Definition linked (g1 g2 : list str) : Prop :=
  exists rest, rest <> [] /\ g2 = fst (overlap_seed overlap g1) ++ rest.

Definition inv (st : gchunker) : Prop :=
  g_length st = total_len (g_current st)
  /\ Forall tracked (groups st)
  /\ (g_current st = [] \/ tracked (g_current st))
  /\ chained linked (groups st ++ [g_current st]).

Lemma inv_init : inv gchunker_init.
Proof. repeat split; simpl; auto. Qed.

Lemma nonempty_true {A} (l : list A) : nonempty l = true -> l <> [].
Proof. now destruct l. Qed.

Lemma snoc_neq_nil {A} (l : list A) x : l ++ [x] <> [].
Proof. now destruct l. Qed.

Lemma inv_gfeed st s : inv st -> inv (gfeed chunk_size overlap st s).
Proof.
  intros (Hlen & Hgs & Hcur & Hch). unfold gfeed.
  destruct ((g_length st + len s >? chunk_size) && nonempty (g_current st)) eqn:Hc.
  - apply andb_prop in Hc as [_ Hne]. apply nonempty_true in Hne.
    destruct (overlap_seed overlap (g_current st)) as [buf olen] eqn:Hseed.
    pose proof (overlap_seed_spec _ _ _ _ Hseed) as (Hol & Hb & _).
    repeat split; simpl.
    + rewrite total_len_app. simpl. lia.
    + apply Forall_app. split; [exact Hgs|].
      constructor; [|constructor]. destruct Hcur; [contradiction|assumption].
    + right. split; [apply snoc_neq_nil|]. right. now exists buf, s.
    + apply chained_snoc; [exact Hch|].
      exists [s]. rewrite Hseed. split; [easy|reflexivity].
  - repeat split; simpl.
    + rewrite total_len_app. simpl. lia.
    + exact Hgs.
    + right. split; [apply snoc_neq_nil|].
      destruct (g_current st) as [|c0 cur] eqn:Ecur.
      * right. exists [], s. split; [reflexivity|now left].
      * left. rewrite andb_true_r in Hc. rewrite total_len_app. simpl.
        simpl in Hlen. lia.
    + apply chained_last with (a := g_current st); [exact Hch|].
      intros x (rest & Hr & ->). exists (rest ++ [s]).
      split; [apply snoc_neq_nil|now rewrite app_assoc].
Qed.

Lemma inv_fold ss : forall st, inv st -> inv (fold_left (gfeed chunk_size overlap) ss st).
Proof.
  induction ss as [|s ss IH]; intros st H; simpl; [exact H|].
  apply IH, inv_gfeed, H.
Qed.

Lemma inv_gflush st : inv st -> Forall tracked (gflush st) /\ chained linked (gflush st).
Proof.
  intros (_ & Hgs & Hcur & Hch). unfold gflush.
  destruct (nonempty (g_current st)) eqn:Hne.
  - apply nonempty_true in Hne. split; [|exact Hch].
    apply Forall_app. split; [exact Hgs|].
    constructor; [|constructor]. destruct Hcur; [contradiction|assumption].
  - split; [exact Hgs|]. eapply chained_init, Hch.
Qed.

Lemma chunk_groups_inv text :
  Forall tracked (chunk_groups text chunk_size overlap)
  /\ chained linked (chunk_groups text chunk_size overlap).
Proof.
  unfold chunk_groups. destruct text as [|c r]; [split; simpl; auto|].
  apply inv_gflush, inv_fold, inv_init.
Qed.
End Invariant.

(** The sentences of the groups are sentences of the text. *)
Lemma gfeed_sentences cs ov st s (seen : list str) :
  (forall g x, In g (groups st) -> In x g -> In x seen) ->
  (forall x, In x (g_current st) -> In x seen) ->
  (forall g x, In g (groups (gfeed cs ov st s)) -> In x g -> In x (seen ++ [s]))
  /\ (forall x, In x (g_current (gfeed cs ov st s)) -> In x (seen ++ [s])).
Proof.
  intros Hg Hc. unfold gfeed.
  destruct ((g_length st + len s >? cs) && nonempty (g_current st)).
  - destruct (overlap_seed ov (g_current st)) as [buf olen] eqn:Hseed.
    apply overlap_seed_spec in Hseed as (_ & _ & pre & Hcur & _).
    simpl. split.
    + intros g x Hin Hx. apply in_or_app. left.
      apply in_app_or in Hin as [Hin|[<-|[]]]; eauto.
    + intros x Hx. apply in_or_app.
      apply in_app_or in Hx as [Hx|Hx]; [left|now right].
      apply Hc. rewrite Hcur. apply in_or_app. now right.
  - simpl. split.
    + intros g x Hin Hx. apply in_or_app. left. eauto.
    + intros x Hx. apply in_or_app.
      apply in_app_or in Hx as [Hx|Hx]; [left; auto|now right].
Qed.

Lemma fold_sentences cs ov ss : forall st (seen : list str),
  (forall g x, In g (groups st) -> In x g -> In x seen) ->
  (forall x, In x (g_current st) -> In x seen) ->
  forall g x, In g (gflush (fold_left (gfeed cs ov) ss st)) -> In x g -> In x (seen ++ ss).
Proof.
  induction ss as [|s ss IH]; intros st seen Hg Hc g x; simpl.
  - rewrite app_nil_r. unfold gflush.
    destruct (nonempty (g_current st)); [|eauto].
    intros Hin Hx. apply in_app_or in Hin as [Hin|[<-|[]]]; eauto.
  - destruct (gfeed_sentences cs ov st s seen Hg Hc) as [Hg' Hc'].
    intros Hin Hx.
    replace (seen ++ s :: ss) with ((seen ++ [s]) ++ ss) by now rewrite <- app_assoc.
    exact (IH _ _ Hg' Hc' g x Hin Hx).
Qed.

Lemma chunk_groups_sentences text cs ov g x :
  In g (chunk_groups text cs ov) -> In x g -> In x (split_sentences text).
Proof.
  unfold chunk_groups. destruct text as [|c r]; [intros []|].
  apply (fold_sentences cs ov _ gchunker_init []); simpl; tauto.
Qed.

Lemma last_sentence_snoc {A} (l : list A) x d : List.last (l ++ [x]) d = x.
Proof.
  induction l as [|y l IH]; [reflexivity|].
  simpl. destruct (l ++ [x]) eqn:E; [now destruct l|exact IH].
Qed.

(** *** Size of the segments (defaults 500 / 50) *)

(** The bound as the design document words it: a segment is a single
    oversized sentence, or it exceeds the target by at most the length
    of one sentence of the text. *)
Definition size_bound_as_stated (text : str) : Prop :=
  forall seg, In seg (chunk_text text DEFAULT_CHUNK_SIZE DEFAULT_OVERLAP) ->
    (In seg (split_sentences text) /\ DEFAULT_CHUNK_SIZE < len seg)
    \/ exists s, In s (split_sentences text)
                 /\ len seg <= DEFAULT_CHUNK_SIZE + len s.

(** Fifty-six sentences of nine characters. *)
Definition built_it (n : nat) : str := join_sp (repeat (py "Built it.") n).

(** C1, as stated, fails: the first segment of [built_it 56] holds 55
    sentences (495 characters, within the target) and 54 joining spaces,
    549 characters in all, while every sentence of the text is 9 long. *)
Lemma size_bound_counterexample : ~ size_bound_as_stated (built_it 56).
Proof.
  intros H.
  assert (Hin : In (built_it 55) (chunk_text (built_it 56) DEFAULT_CHUNK_SIZE DEFAULT_OVERLAP))
    by (vm_compute; left; reflexivity).
  assert (Hall : forallb (fun s => DEFAULT_CHUNK_SIZE + len s <? len (built_it 55))
                   (split_sentences (built_it 56)) = true) by (vm_compute; reflexivity).
  pose proof (proj1 (forallb_forall _ _) Hall) as Hs.
  destruct (H _ Hin) as [[Hsingle _]|(s & Hin' & Hle)].
  - apply Hs, Z.ltb_lt in Hsingle. unfold DEFAULT_CHUNK_SIZE in Hsingle.
    pose proof (len_nonneg (built_it 55)). lia.
  - apply Hs, Z.ltb_lt in Hin'. lia.
Qed.

(** ** C1 (amended) : with the default sizes, every emitted segment is
    the join of a non-empty group of [n] sentences of the text.  Their
    lengths add up to at most [target_size], unless the group is a seed
    of carried-over sentences (possibly empty, shorter than [overlap])
    followed by exactly one more sentence: a single oversized sentence,
    or the sentence whose arrival made the loop close the previous
    segment.  The segment's character length is that sum plus the
    [n - 1] joining spaces, so it is at most [target_size] plus the
    length of its last sentence plus [n - 1]. *)
Theorem segment_size_bound (text seg : str) :
  In seg (chunk_text text DEFAULT_CHUNK_SIZE DEFAULT_OVERLAP) ->
  exists g, seg = join_sp g /\ g <> []
    /\ (forall s, In s g -> In s (split_sentences text))
    /\ len seg = total_len g + (len g - 1)
    /\ (total_len g <= DEFAULT_CHUNK_SIZE
        \/ exists seed s, g = seed ++ [s] /\ total_len seed < DEFAULT_OVERLAP)
    /\ len seg <= DEFAULT_CHUNK_SIZE + len (List.last g []) + (len g - 1).
Proof.
  rewrite chunk_text_groups. intros Hin.
  apply in_map_iff in Hin as (g & <- & Hg).
  destruct (chunk_groups_inv DEFAULT_CHUNK_SIZE DEFAULT_OVERLAP text) as [Hall _].
  pose proof (proj1 (List.Forall_forall _ _) Hall g Hg) as [Hne Hcase].
  exists g. split; [reflexivity|]. split; [exact Hne|].
  split; [intros s; exact (chunk_groups_sentences _ _ _ g s Hg)|].
  pose proof (len_join_sp g Hne) as Hlen. split; [exact Hlen|].
  assert (Hcase' : total_len g <= DEFAULT_CHUNK_SIZE
            \/ exists seed s, g = seed ++ [s] /\ total_len seed < DEFAULT_OVERLAP).
  { destruct Hcase as [Hle|(seed & s & -> & Hseed)]; [now left|right].
    exists seed, s. split; [reflexivity|].
    destruct Hseed as [->|Hlt]; [reflexivity|exact Hlt]. }
  split; [exact Hcase'|]. rewrite Hlen.
  destruct Hcase' as [Hle|(seed & s & -> & Hlt)].
  - pose proof (len_nonneg (List.last g [])). lia.
  - rewrite last_sentence_snoc, total_len_app. simpl.
    unfold DEFAULT_CHUNK_SIZE, DEFAULT_OVERLAP in *. lia.
Qed.

Lemma segment_size_bound_witness :
  In (built_it 55) (chunk_text (built_it 56) DEFAULT_CHUNK_SIZE DEFAULT_OVERLAP)
  /\ exists g, built_it 55 = join_sp g /\ g <> []
    /\ (forall s, In s g -> In s (split_sentences (built_it 56)))
    /\ len (built_it 55) = total_len g + (len g - 1)
    /\ (total_len g <= DEFAULT_CHUNK_SIZE
        \/ exists seed s, g = seed ++ [s] /\ total_len seed < DEFAULT_OVERLAP)
    /\ len (built_it 55) <= DEFAULT_CHUNK_SIZE + len (List.last g []) + (len g - 1).
Proof.
  split; [vm_compute; left; reflexivity|].
  apply (segment_size_bound (built_it 56) (built_it 55)).
  vm_compute; left; reflexivity.
Defined.

(** *** Overlap between consecutive segments *)







(** *** An overlap that is not smaller than the target *)

(** C3, as stated, fails: no cap is applied.  With a target of 20 and an
    overlap of 25 the whole first segment is carried over; with the
    overlap capped at 19 only its last sentence would be. *)
Lemma overlap_cap_counterexample :
  0 < 20 /\ 20 <= 25
  /\ chunk_text (py "Led teams. Cut costs. Won deals.") 20 25
     <> chunk_text (py "Led teams. Cut costs. Won deals.") 20 (20 - 1).
Proof. split; [lia|split; [lia|]]. vm_compute. discriminate. Qed.

(** ** C3 (amended) : for every text and every [target_size > 0],
    [chunk_text] with [overlap >= target_size] returns its segments (it
    is a total function: the source has no raising path) and uses the
    overlap as given, without a cap.  Take two consecutive groups of
    sentences of the loop ([g1] and [g2], whose joins are the segments
    at the same positions of [chunk_text]): when the lengths of the
    sentences of [g1] add up to less than [overlap], all of [g1] is
    carried over, the next group being [g1] followed by at least one
    more sentence, and the next segment the first one, a space, and the
    join of those. *)
Theorem overlap_used_as_given (text : str) (chunk_size overlap : Z)
    (i : nat) (g1 g2 : list str) :
  0 < chunk_size -> chunk_size <= overlap ->
  nth_error (chunk_groups text chunk_size overlap) i = Some g1 ->
  nth_error (chunk_groups text chunk_size overlap) (S i) = Some g2 ->
  nth_error (chunk_text text chunk_size overlap) i = Some (join_sp g1)
  /\ nth_error (chunk_text text chunk_size overlap) (S i) = Some (join_sp g2)
  /\ g1 <> []
  /\ (forall s, In s g1 \/ In s g2 -> In s (split_sentences text))
  /\ (total_len g1 < overlap ->
      exists rest, rest <> [] /\ g2 = g1 ++ rest
                   /\ join_sp g2 = join_sp g1 ++ [SPACE] ++ join_sp rest).
Proof.
  intros _ _ E1 E2.
  split; [rewrite chunk_text_groups, nth_error_map, E1; reflexivity|].
  split; [rewrite chunk_text_groups, nth_error_map, E2; reflexivity|].
  destruct (chunk_groups_inv chunk_size overlap text) as [Hall Hch].
  destruct (chained_nth _ _ Hch i g1 g2 E1 E2) as (rest & Hrest & Hg2).
  assert (Hne : g1 <> []).
  { exact (proj1 (proj1 (List.Forall_forall _ _) Hall g1 (nth_error_In _ _ E1))). }
  split; [exact Hne|]. split.
  { intros s [Hs|Hs].
    - exact (chunk_groups_sentences _ _ _ g1 s (nth_error_In _ _ E1) Hs).
    - exact (chunk_groups_sentences _ _ _ g2 s (nth_error_In _ _ E2) Hs). }
  intros Hlt. rewrite overlap_seed_all in Hg2 by exact Hlt.
  exists rest. split; [exact Hrest|]. split; [exact Hg2|].
  rewrite Hg2. unfold join_sp. now rewrite join_app.
Qed.

Lemma overlap_used_as_given_witness :
  (0 < 20 /\ 20 <= 21
   /\ nth_error (chunk_groups (py "Led teams. Cut costs. Won deals.") 20 21) 0
      = Some [py "Led teams."; py "Cut costs."]
   /\ nth_error (chunk_groups (py "Led teams. Cut costs. Won deals.") 20 21) 1
      = Some [py "Led teams."; py "Cut costs."; py "Won deals."])
  /\ nth_error (chunk_text (py "Led teams. Cut costs. Won deals.") 20 21) 0
     = Some (join_sp [py "Led teams."; py "Cut costs."])
  /\ nth_error (chunk_text (py "Led teams. Cut costs. Won deals.") 20 21) 1
     = Some (join_sp [py "Led teams."; py "Cut costs."; py "Won deals."])
  /\ [py "Led teams."; py "Cut costs."] <> []
  /\ (forall s, In s [py "Led teams."; py "Cut costs."]
                \/ In s [py "Led teams."; py "Cut costs."; py "Won deals."] ->
                In s (split_sentences (py "Led teams. Cut costs. Won deals.")))
  /\ (total_len [py "Led teams."; py "Cut costs."] < 21 ->
      exists rest, rest <> []
        /\ [py "Led teams."; py "Cut costs."; py "Won deals."]
           = [py "Led teams."; py "Cut costs."] ++ rest
        /\ join_sp [py "Led teams."; py "Cut costs."; py "Won deals."]
           = join_sp [py "Led teams."; py "Cut costs."] ++ [SPACE] ++ join_sp rest).
Proof.
  split; [repeat split; try lia; reflexivity|].
  apply (overlap_used_as_given (py "Led teams. Cut costs. Won deals.") 20 21 0);
    try lia; reflexivity.
Defined.

End ChunkText.

(** * Properties of [create_document_chunks] *)

Module DocumentChunks.

Lemma enumerate_from_indices {A} (l : list A) : forall i,
  map fst (enumerate_from i l) = map (fun k => i + Z.of_nat k) (seq 0 (length l)).
Proof.
  induction l as [|x l IH]; intros i; simpl; [reflexivity|].
  f_equal; [lia|].
  rewrite IH, <- seq_shift, map_map. apply map_ext. intros k. lia.
Qed.

Lemma length_enumerate_from {A} (l : list A) : forall i,
  length (enumerate_from i l) = length l.
Proof. induction l as [|x l IH]; intros i; simpl; [reflexivity|]. now rewrite IH. Qed.

(** ** C5 : the chunks [create_document_chunks] returns for a document
    carry, in emission order, the indices [0, 1, ..., k - 1], [k] being
    the number of chunks returned: no gap, no repeat.  (It holds for
    every document; one without content yields no chunk.) *)
Theorem chunk_index_contiguous (now : str) (doc : Document) :
  map (fun c => chunk_index (metadata c)) (create_document_chunks now doc)
  = map Z.of_nat (seq 0 (length (create_document_chunks now doc))).
Proof.
  unfold create_document_chunks.
  destruct (get_default (doc_content doc) []) as [|c r]; [reflexivity|].
  set (segs := chunk_text _ _ _).
  rewrite length_map, map_map. unfold enumerate.
  rewrite length_enumerate_from.
  transitivity (map fst (enumerate_from 0 segs)).
  - apply map_ext. now intros [i seg].
  - rewrite enumerate_from_indices. apply map_ext. intros k. lia.
Qed.

(** The chunks are the segments of the cleaned content, in order. *)
Lemma chunk_texts_in_order (now : str) (doc : Document) :
  map text (create_document_chunks now doc)
  = match get_default (doc_content doc) [] with
    | [] => []
    | raw => chunk_text (clean_text raw) DEFAULT_CHUNK_SIZE DEFAULT_OVERLAP
    end.
Proof.
  unfold create_document_chunks.
  destruct (get_default (doc_content doc) []) as [|c r]; [reflexivity|].
  set (segs := chunk_text _ _ _). rewrite map_map. unfold enumerate.
  generalize 0. induction segs as [|x l IH]; intros i; simpl; [reflexivity|].
  now rewrite IH.
Qed.

End DocumentChunks.

(** * Test collaborators *)

Module Toy.

(** A small stand-in for the outside world: the store is a list of
    rows (id, document, metadata), [Ext] counts the calls made; the
    embedding service is up or down, and the chat model refuses the
    prompts [refuse] selects. *)
Definition row : Type := str * (str * ChunkMetadata).

Definition upsert_rows (docs : list str) (metas : list ChunkMetadata) (ids : list str)
    (st : list row) : list row :=
  combine ids (combine docs metas)
  ++ List.filter (fun r => negb (existsb (str_eqb (fst r)) ids)) st.

Definition collaborators (embedding_up : bool) (refuse : str -> bool) : Collaborators :=
  {| Store := list row;
     Ext := nat;
     vector := list Z;
     distance := Z;
     embed_documents texts n :=
       (if embedding_up then Ok (map (fun t => [len t]) texts)
        else Raise (OtherException (py "quota exceeded")), S n);
     embed_query q n :=
       (if embedding_up then Ok [len q]
        else Raise (OtherException (py "quota exceeded")), S n);
     collection_upsert docs embs metas ids st := (Ok tt, upsert_rows docs metas ids st);
     collection_query v n st :=
       (Ok {| q_ids := [map fst st];
              q_documents := Some [map (fun r => fst (snd r)) st];
              q_metadatas := Some [map (fun r => snd (snd r)) st];
              q_distances := None |}, st);
     llm_invoke prompt n :=
       (if refuse prompt then Raise (OtherException (py "rate limit reached"))
        else Ok (py "Generated text."), S n) |}.

Definition a_metadata (i : Z) : ChunkMetadata :=
  {| cm_base := {| filename := py "cv.txt"; file_type := py "txt";
                   date_processed := py "2024-01-01T00:00:00";
                   word_count := 2 |};
     chunk_index := i |}.

Definition a_chunk : Chunk :=
  {| text := py "Led teams."; metadata := a_metadata 0 |}.

Definition old_row : row := (py "cv.txt_0", (py "Old text.", a_metadata 0)).
Definition new_row : row := (py "cv.txt_0", (py "Led teams.", a_metadata 0)).

Definition a_world (embedding_up : bool) (refuse : str -> bool)
    (rows : list row) (calls : nat)
  : @world (collaborators embedding_up refuse) :=
  @Build_world (collaborators embedding_up refuse) rows calls [].

Definition pipeline : RAGPipeline :=
  {| collection_name := py "job_assistant"; collection := Some CollectionHandle |}.

Definition generator : JobApplicationGenerator := {| rag_pipeline := pipeline |}.

End Toy.

(** * Properties of the vector index *)

Module VectorIndex.

Section Index.
Context {C : Collaborators}.

Definition ABORTED : log_record :=
  (ERROR, py "Failed to generate embeddings. Aborting add_documents.").

(** The world after a failed embedding call. *)
Definition after_failed_embedding (texts : list str) (w : world) : world :=
  {| store := store w;
     ext := snd (embed_documents texts (ext w));
     log := log w
            ++ match fst (embed_documents texts (ext w)) with
               | Raise e => [(ERROR, py "Failed to create embeddings: " ++ exn_str e)]
               | Ok _ => []
               end |}.

Lemma create_embeddings_failure (texts : list str) (w : world) :
  texts <> [] ->
  (fst (embed_documents texts (ext w)) = Ok []
   \/ exists e, fst (embed_documents texts (ext w)) = Raise e) ->
  create_embeddings texts w = (Ok [], after_failed_embedding texts w).
Proof.
  intros Hne Hfail. unfold create_embeddings, after_failed_embedding.
  destruct texts as [|t ts]; [contradiction|].
  unfold try_except, on_ext, bind, logger, ret.
  destruct (embed_documents (t :: ts) (ext w)) as [r x].
  simpl in *. destruct Hfail as [->|[e ->]]; simpl.
  - rewrite app_nil_r. now destruct w.
  - reflexivity.
Qed.

(** ** C6 : for a non-empty list of chunks, when the embedding call
    raises or returns no vector, [add_documents] returns normally,
    leaves the stored collection as it was (no upsert is issued: the
    only change outside the process is the embedding call itself),
    and reports the abort as an error record of the log. *)
Theorem add_documents_aborts (self : RAGPipeline) (chunks : list Chunk) (w : world) :
  chunks <> [] ->
  (fst (embed_documents (map text chunks) (ext w)) = Ok []
   \/ exists e, fst (embed_documents (map text chunks) (ext w)) = Raise e) ->
  exists w',
    add_documents self chunks w = (Ok tt, w')
    /\ store w' = store w
    /\ ext w' = snd (embed_documents (map text chunks) (ext w))
    /\ log w' =
         log w
         ++ match fst (embed_documents (map text chunks) (ext w)) with
            | Raise e => [(ERROR, py "Failed to create embeddings: " ++ exn_str e)]
            | Ok _ => []
            end
         ++ [ABORTED].
Proof.
  intros Hne Hfail.
  destruct chunks as [|c0 cs]; [contradiction|].
  unfold add_documents, try_except, bind.
  rewrite create_embeddings_failure
    by (try exact Hfail; discriminate).
  unfold logger. simpl.
  eexists. repeat split; simpl. now rewrite <- app_assoc.
Qed.
End Index.

Lemma add_documents_aborts_witness :
  let C := Toy.collaborators false (fun _ => false) in
  let w := Toy.a_world false (fun _ => false) [Toy.old_row] 0 in
  ([Toy.a_chunk] <> []
   /\ (fst (embed_documents (map text [Toy.a_chunk]) (ext w)) = Ok []
       \/ exists e, fst (embed_documents (map text [Toy.a_chunk]) (ext w)) = Raise e))
  /\ exists w',
      add_documents Toy.pipeline [Toy.a_chunk] w = (Ok tt, w')
      /\ store w' = store w
      /\ ext w' = snd (embed_documents (map text [Toy.a_chunk]) (ext w))
      /\ log w' =
           log w
           ++ match fst (embed_documents (map text [Toy.a_chunk]) (ext w)) with
              | Raise e => [(ERROR, py "Failed to create embeddings: " ++ exn_str e)]
              | Ok _ => []
              end
           ++ [ABORTED].
Proof.
  intros C w.
  assert (H1 : [Toy.a_chunk] <> []) by discriminate.
  assert (H2 : fst (embed_documents (map text [Toy.a_chunk]) (ext w)) = Ok []
               \/ exists e, fst (embed_documents (map text [Toy.a_chunk]) (ext w)) = Raise e)
    by (right; eexists; reflexivity).
  split; [split; assumption|].
  exact (add_documents_aborts Toy.pipeline [Toy.a_chunk] w H1 H2).
Defined.

(** With the embedding service up, the same call does write. *)
Example add_documents_writes :
  let C := Toy.collaborators true (fun _ => false) in
  let w := Toy.a_world true (fun _ => false) [Toy.old_row] 0 in
  store (snd (add_documents Toy.pipeline [Toy.a_chunk] w))
  = [Toy.new_row].
Proof. reflexivity. Qed.

End VectorIndex.

(** * Properties of retrieval and generation *)

Module Generation.

Section Retrieval.
Context {C : Collaborators}.

(** [search_similar] catches whatever its collaborators raise. *)
Lemma search_similar_returns (self : RAGPipeline) (query : str) (n : Z) (w : world) :
  exists results w', search_similar self query n w = (Ok results, w').
Proof.
  unfold search_similar, try_except, bind, on_ext, with_collection, on_store,
    raise, lift, logger, ret.
  destruct (embed_query query (ext w)) as [[v|e] x]; [|eauto].
  destruct (collection self); simpl; [|eauto].
  destruct (collection_query v n (store w)) as [[qr|e] st]; [|eauto].
  destruct (format_results qr); eauto.
Qed.

(** ** C7 : for every query and limit, [_retrieve_context] returns the
    sentinel when the search yields no result, and otherwise the texts
    of the results, in the order the search returned them, joined by a
    blank line. *)
Theorem retrieve_context_sentinel_or_join
    (self : JobApplicationGenerator) (query : str) (n_results : Z) (w : world) :
  exists results w',
    search_similar (rag_pipeline self) query n_results w = (Ok results, w')
    /\ _retrieve_context self query n_results w
       = (Ok (match results with
              | [] => py "No relevant background information available."
              | _ => join [NEWLINE; NEWLINE] (map sr_text results)
              end), w').
Proof.
  destruct (search_similar_returns (rag_pipeline self) query n_results w)
    as (results & w' & Hs).
  exists results, w'. split; [exact Hs|].
  unfold _retrieve_context, try_except, bind. rewrite Hs.
  now destruct results.
Qed.

Lemma retrieve_context_returns (self : JobApplicationGenerator) query n w :
exists context w', _retrieve_context self query n w = (Ok context, w').
Proof.
destruct (search_similar_returns (rag_pipeline self) query n w) as (rs & w' & Hs).
unfold _retrieve_context, try_except, bind. rewrite Hs.
destruct rs; unfold ret; eauto.
Qed.
End Retrieval.

(** *** The renderer *)

Fixpoint fields (t : template) : list string :=
  match t with
  | [] => []
  | Lit _ :: r => fields r
  | Field name :: r => name :: fields r
  end.

(** Every field of the template [prompt_type] is among [keys]. *)
Definition configured_for (T : prompt_table) (prompt_type : string) (keys : list string) : bool :=
  match dict_get (prompts T) prompt_type with
  | Some t => forallb (fun f => existsb (String.eqb f) keys) (fields t)
  | None => false
  end.

(** The templates ask for nothing the four operations do not pass. *)
Definition configured (T : prompt_table) : bool :=
  configured_for T "resume_bullets" ["job_description"; "context"; "name"]%string
  && configured_for T "cover_letter"
       ["job_description"; "company_name"; "role_title"; "context"]%string
  && configured_for T "ats_analysis" ["job_description"; "resume_content"]%string
  && configured_for T "linkedin_message"
       ["job_description"; "company_name"; "role_title"; "achievement"]%string.

Lemma source_templates_configured (P : prose) : configured (source_templates P) = true.
Proof. reflexivity. Qed.

Lemma kw_is_Some (l : list (string * str)) (f : string) :
  existsb (String.eqb f) (map fst l) = true -> is_Some (kw l !! f).
Proof.
  unfold kw. induction l as [|[k v] l IH]; simpl; [discriminate|].
  destruct (String.eqb f k) eqn:E; simpl.
  - apply String.eqb_eq in E. subst k. intros _.
    rewrite lookup_insert_eq. now exists v.
  - intros H. destruct (decide (k = f)) as [->|Hne].
    + rewrite lookup_insert_eq. now exists v.
    + rewrite lookup_insert_ne by exact Hne. auto.
Qed.

Lemma format_returns (t : template) (kwargs : gmap string str) :
  (forall f, In f (fields t) -> is_Some (kwargs !! f)) ->
  exists s, format t kwargs = Ok s.
Proof.
  induction t as [|[s|name] t IH]; intros H; cbn [format].
  - eauto.
  - destruct (IH H) as [rest ->]. simpl. eauto.
  - destruct (H name (or_introl eq_refl)) as [v ->].
    destruct (IH (fun f Hf => H f (or_intror Hf))) as [rest ->]. simpl. eauto.
Qed.

Lemma format_raises_key_error t kwargs e :
  format t kwargs = Raise e -> exists key, e = KeyError key.
Proof.
  induction t as [|[s|name] t IH]; cbn [format]; [discriminate| |].
  - destruct (format t kwargs); simpl; [discriminate|]. intros H. apply IH. congruence.
  - destruct (kwargs !! name); [|intros H; injection H as <-; eauto].
    destruct (format t kwargs); simpl; [discriminate|]. intros H. apply IH. congruence.
Qed.

Lemma get_prompt_returns T prompt_type (l : list (string * str)) :
  configured_for T prompt_type (map fst l) = true ->
  exists prompt, get_prompt T prompt_type (kw l) = Ok prompt.
Proof.
  unfold configured_for, get_prompt.
  destruct (dict_get (prompts T) prompt_type) as [t|]; [|discriminate].
  intros H. destruct (format_returns t (kw l)) as [s ->]; [|eauto].
  intros f Hf. apply kw_is_Some.
  exact (proj1 (forallb_forall _ _) H f Hf).
Qed.

(** On a template of plain fields, [get_prompt] raises [ValueError],
    and nothing else. *)
Lemma get_prompt_raises_value_error T prompt_type kwargs e :
  get_prompt T prompt_type kwargs = Raise e -> exists msg, e = ValueError msg.
Proof.
  unfold get_prompt.
  destruct (dict_get (prompts T) prompt_type) as [t|];
    [|intros H; injection H as <-; eauto].
  destruct (format t kwargs) as [s|e'] eqn:E; [discriminate|].
  destruct (format_raises_key_error _ _ _ E) as [key ->].
  intros H; injection H as <-; eauto.
Qed.

Lemma get_prompt_unknown T prompt_type kwargs :
  dict_get (prompts T) prompt_type = None ->
  get_prompt T prompt_type kwargs
  = Raise (ValueError
             (py "Unknown prompt type: " ++ py prompt_type ++ py ". Valid types: "
              ++ py "['resume_bullets', 'cover_letter', 'ats_analysis', 'linkedin_message']")).
Proof. unfold get_prompt. now intros ->. Qed.

Lemma get_prompt_missing_field T prompt_type t kwargs key :
  dict_get (prompts T) prompt_type = Some t ->
  format t kwargs = Raise (KeyError key) ->
  get_prompt T prompt_type kwargs
  = Raise (ValueError
             (py "Missing required argument for " ++ py prompt_type
              ++ py " prompt: " ++ repr key)).
Proof. unfold get_prompt. now intros -> ->. Qed.

(** *** The four operations *)

(** What an operation puts in its slot, given the outcome of its call
    to the chat model. *)
Definition artifact_text (outcome : result str) : str :=
  match outcome with
  | Ok content => content
  | Raise e => error_text e
  end.

Section Operations.
Context {C : Collaborators}.
Variable T : prompt_table.
Variable self : JobApplicationGenerator.

Local Open Scope py_scope.

(** The shape the four operations share. *)
Lemma attempt_completes (build : M str) (w : world) prompt w1 :
  build w = (Ok prompt, w1) ->
  try_except (prompt <- build ;; invoke_llm prompt) (fun e => ret (error_text e)) w
  = (Ok (artifact_text (fst (invoke_llm prompt w1))), snd (invoke_llm prompt w1)).
Proof.
  intros H. unfold try_except, bind. rewrite H.
  now destruct (invoke_llm prompt w1) as [[content|e] w2].
Qed.

Lemma attempt_swallows (build : M str) (w : world) e w1 :
  build w = (Raise e, w1) ->
  try_except (prompt <- build ;; invoke_llm prompt) (fun e => ret (error_text e)) w
  = (Ok (error_text e), w1).
Proof. intros H. unfold try_except, bind. now rewrite H. Qed.

Lemma resume_bullets_prompt_returns jd name w :
  configured T = true ->
  exists prompt w1, resume_bullets_prompt T self jd name w = (Ok prompt, w1).
Proof.
  intros HT. unfold configured in HT. repeat (apply andb_prop in HT as [HT ?]).
  unfold resume_bullets_prompt, bind.
  destruct (retrieve_context_returns self jd 5 w) as (ctx & w1 & ->).
  edestruct get_prompt_returns as [prompt Hp]; [|unfold lift; rewrite Hp; eauto].
  exact HT.
Qed.

Lemma cover_letter_prompt_returns jd company role w :
  configured T = true ->
  exists prompt w1, cover_letter_prompt T self jd company role w = (Ok prompt, w1).
Proof.
  intros HT. unfold configured in HT. repeat (apply andb_prop in HT as [HT ?]).
  unfold cover_letter_prompt, bind.
  destruct (retrieve_context_returns self jd 5 w) as (ctx & w1 & ->).
  edestruct get_prompt_returns as [prompt Hp]; [|unfold lift; rewrite Hp; eauto].
  assumption.
Qed.

Lemma ats_analysis_prompt_returns jd resume w :
  configured T = true ->
  exists prompt w1, ats_analysis_prompt T self jd resume w = (Ok prompt, w1).
Proof.
  intros HT. unfold configured in HT. repeat (apply andb_prop in HT as [HT ?]).
  unfold ats_analysis_prompt, bind.
  match goal with |- context [if ?b then _ else _] => destruct b end.
  - destruct (retrieve_context_returns self
                (py "resume work experience projects skills education background") 10 w)
      as (ctx & w1 & ->).
    edestruct get_prompt_returns as [prompt Hp]; [|unfold lift; rewrite Hp; eauto].
    assumption.
  - unfold ret.
    edestruct get_prompt_returns as [prompt Hp]; [|unfold lift; rewrite Hp; eauto].
    assumption.
Qed.

Lemma linkedin_message_prompt_returns jd company role w :
  configured T = true ->
  exists prompt w1, linkedin_message_prompt T self jd company role w = (Ok prompt, w1).
Proof.
  intros HT. unfold configured in HT. repeat (apply andb_prop in HT as [HT ?]).
  unfold linkedin_message_prompt, bind.
  destruct (search_similar_returns (rag_pipeline self) jd 1 w) as (rs & w1 & ->).
  edestruct get_prompt_returns as [prompt Hp]; [|unfold lift; rewrite Hp; eauto].
  assumption.
Qed.

(** Whatever the outcomes of the four calls to the chat model,
    [generate_all] returns, each slot holding the text of its own
    call or the placeholder for its own failure. *)
Lemma generate_all_runs jd company role name resume (w0 : world) :
  configured T = true ->
  exists p1 w1 p2 w2 p3 w3 p4 w4,
    resume_bullets_prompt T self jd name w0 = (Ok p1, w1)
    /\ cover_letter_prompt T self jd company role (snd (invoke_llm p1 w1)) = (Ok p2, w2)
    /\ ats_analysis_prompt T self jd resume (snd (invoke_llm p2 w2)) = (Ok p3, w3)
    /\ linkedin_message_prompt T self jd company role (snd (invoke_llm p3 w3)) = (Ok p4, w4)
    /\ generate_all T self jd company role name resume w0
       = (Ok {| resume_bullets := artifact_text (fst (invoke_llm p1 w1));
                cover_letter := artifact_text (fst (invoke_llm p2 w2));
                ats_analysis := artifact_text (fst (invoke_llm p3 w3));
                linkedin_message := artifact_text (fst (invoke_llm p4 w4)) |},
          snd (invoke_llm p4 w4)).
Proof.
  intros HT.
  destruct (resume_bullets_prompt_returns jd name w0 HT) as (p1 & w1 & H1).
  destruct (cover_letter_prompt_returns jd company role (snd (invoke_llm p1 w1)) HT)
    as (p2 & w2 & H2).
  destruct (ats_analysis_prompt_returns jd resume (snd (invoke_llm p2 w2)) HT)
    as (p3 & w3 & H3).
  destruct (linkedin_message_prompt_returns jd company role (snd (invoke_llm p3 w3)) HT)
    as (p4 & w4 & H4).
  exists p1, w1, p2, w2, p3, w3, p4, w4. repeat (split; [assumption|]).
  unfold generate_all, generate_resume_bullets, generate_cover_letter,
    generate_ats_analysis, generate_linkedin_message.
  unfold bind at 1. rewrite (attempt_completes _ _ _ _ H1).
  unfold bind at 1. rewrite (attempt_completes _ _ _ _ H2).
  unfold bind at 1. rewrite (attempt_completes _ _ _ _ H3).
  unfold bind at 1. rewrite (attempt_completes _ _ _ _ H4).
  reflexivity.
Qed.
End Operations.

(** The call to the chat model, in terms of the collaborator. *)
Lemma invoke_llm_call {C : Collaborators} (prompt : str) (w : world) :
  invoke_llm prompt w
  = (fst (llm_invoke prompt (ext w)),
     {| store := store w; ext := snd (llm_invoke prompt (ext w)); log := log w |}).
Proof. unfold invoke_llm, on_ext. now destruct (llm_invoke prompt (ext w)). Qed.

(** ** C8 : with the repository's templates, [generate_all] never
    raises, whatever the chat model [llm_invoke] does.  It builds its
    four prompts [p1] .. [p4] and calls the model on each in turn, each
    operation starting in the world the previous call left.  Each slot
    of the result holds the text its own call returned, or the
    placeholder ["Error: " ++ str(e)] when that call raised [e].  In
    particular, when exactly one of the four calls raises, the slot of
    that call holds the placeholder and the three others hold the texts
    the model returned for them. *)
Theorem generate_all_isolates_failures {C : Collaborators} (P : prose)
    (self : JobApplicationGenerator)
    (job_description company_name role_title candidate_name resume_content : str)
    (w0 : world) :
  let called := fun (prompt : str) (w : world) =>
    {| store := store w; ext := snd (llm_invoke prompt (ext w)); log := log w |} in
  let slot := fun (prompt : str) (w : world) =>
    match fst (llm_invoke prompt (ext w)) with
    | Ok content => content
    | Raise e => py "Error: " ++ exn_str e
    end in
  exists p1 w1 p2 w2 p3 w3 p4 w4 results,
    resume_bullets_prompt (source_templates P) self job_description candidate_name w0
      = (Ok p1, w1)
    /\ cover_letter_prompt (source_templates P) self job_description company_name
         role_title (called p1 w1) = (Ok p2, w2)
    /\ ats_analysis_prompt (source_templates P) self job_description resume_content
         (called p2 w2) = (Ok p3, w3)
    /\ linkedin_message_prompt (source_templates P) self job_description company_name
         role_title (called p3 w3) = (Ok p4, w4)
    /\ generate_all (source_templates P) self job_description company_name role_title
         candidate_name resume_content w0
       = (Ok results, called p4 w4)
    /\ results = {| resume_bullets := slot p1 w1;
                    cover_letter := slot p2 w2;
                    ats_analysis := slot p3 w3;
                    linkedin_message := slot p4 w4 |}
    /\ (forall e t2 t3 t4,
          fst (llm_invoke p1 (ext w1)) = Raise e ->
          fst (llm_invoke p2 (ext w2)) = Ok t2 ->
          fst (llm_invoke p3 (ext w3)) = Ok t3 ->
          fst (llm_invoke p4 (ext w4)) = Ok t4 ->
          results = {| resume_bullets := py "Error: " ++ exn_str e;
                       cover_letter := t2;
                       ats_analysis := t3;
                       linkedin_message := t4 |})
    /\ (forall t1 e t3 t4,
          fst (llm_invoke p1 (ext w1)) = Ok t1 ->
          fst (llm_invoke p2 (ext w2)) = Raise e ->
          fst (llm_invoke p3 (ext w3)) = Ok t3 ->
          fst (llm_invoke p4 (ext w4)) = Ok t4 ->
          results = {| resume_bullets := t1;
                       cover_letter := py "Error: " ++ exn_str e;
                       ats_analysis := t3;
                       linkedin_message := t4 |})
    /\ (forall t1 t2 e t4,
          fst (llm_invoke p1 (ext w1)) = Ok t1 ->
          fst (llm_invoke p2 (ext w2)) = Ok t2 ->
          fst (llm_invoke p3 (ext w3)) = Raise e ->
          fst (llm_invoke p4 (ext w4)) = Ok t4 ->
          results = {| resume_bullets := t1;
                       cover_letter := t2;
                       ats_analysis := py "Error: " ++ exn_str e;
                       linkedin_message := t4 |})
    /\ (forall t1 t2 t3 e,
          fst (llm_invoke p1 (ext w1)) = Ok t1 ->
          fst (llm_invoke p2 (ext w2)) = Ok t2 ->
          fst (llm_invoke p3 (ext w3)) = Ok t3 ->
          fst (llm_invoke p4 (ext w4)) = Raise e ->
          results = {| resume_bullets := t1;
                       cover_letter := t2;
                       ats_analysis := t3;
                       linkedin_message := py "Error: " ++ exn_str e |}).
Proof.
  intros called slot.
  destruct (generate_all_runs (source_templates P) self job_description company_name
              role_title candidate_name resume_content w0
              (source_templates_configured P))
    as (p1 & w1 & p2 & w2 & p3 & w3 & p4 & w4 & H1 & H2 & H3 & H4 & H).
  rewrite (invoke_llm_call p1 w1) in H2, H.
  rewrite (invoke_llm_call p2 w2) in H3, H.
  rewrite (invoke_llm_call p3 w3) in H4, H.
  rewrite (invoke_llm_call p4 w4) in H.
  cbn [fst snd] in H2, H3, H4, H.
  exists p1, w1, p2, w2, p3, w3, p4, w4. eexists.
  split; [exact H1|]. split; [exact H2|]. split; [exact H3|]. split; [exact H4|].
  split; [exact H|]. subst slot. cbv beta.
  unfold artifact_text, error_text.
  split; [reflexivity|].
  repeat split; intros; repeat match goal with E : fst _ = _ |- _ => rewrite E; clear E end;
    reflexivity.
Qed.

(** A table whose first template asks for a field that
    [generate_resume_bullets] does not pass. *)
Definition misconfigured : prompt_table :=
  {| RESUME_BULLET_PROMPT :=
       [Lit (py "Bullets for "); Field "job_description";
        Lit (py " at "); Field "company_name"];
     COVER_LETTER_PROMPT := [Lit (py "Letter for "); Field "job_description"];
     ATS_ANALYSIS_PROMPT := [Lit (py "Report for "); Field "job_description"];
     LINKEDIN_MESSAGE_PROMPT := [Lit (py "Message for "); Field "job_description"] |}.

(** The repository's templates with a short prose around the fields. *)
Definition short_prose : prose :=
  {| resume_head := py "Bullets. "; resume_tail := [];
     cover_head := py "Letter. "; cover_tail := [];
     ats_head := py "Report. "; ats_tail := [];
     linkedin_head := py "Message. "; linkedin_tail := [] |}.

(** With a chat model that refuses the cover letter's prompt and
    answers the three others, the letter's slot holds the placeholder
    and the other slots the generated texts. *)
Example generate_all_when_one_call_raises :
  fst (generate_all (C := Toy.collaborators true (fun p => starts_with p (py "Letter. ")))
         (source_templates short_prose) Toy.generator (py "Backend engineer") (py "Acme")
         (py "Engineer") (py "Ada") (py "Led teams.")
         (Toy.a_world true (fun p => starts_with p (py "Letter. ")) [Toy.new_row] 0))
  = Ok {| resume_bullets := py "Generated text.";
          cover_letter := py "Error: rate limit reached";
          ats_analysis := py "Generated text.";
          linkedin_message := py "Generated text." |}.
Proof. vm_compute. reflexivity. Qed.

End Generation.

(** * More on [clean_text] *)

Module Cleaning.

Import CleanText.

(** The characters [clean_text] keeps, whitespace apart. *)
Definition is_plain (c : char) : bool :=
  (in_range 97 122 c || in_range 65 90 c || in_range 48 57 c
   || (c =? 46) || (c =? 44) || (c =? 33) || (c =? 63) || (c =? 45))%N.

Lemma kept_plain_or_space c : is_kept c = true -> is_space c = false -> is_plain c = true.
Proof.
  unfold is_kept, is_plain. intros H Hs. rewrite Hs in H.
  rewrite orb_false_r in H. exact H.
Qed.

Lemma spaced_chars s : forall b c,
  spaced b s = true -> In c s -> is_space c = true -> c = SPACE.
Proof.
  induction s as [|x s IH]; intros b c H Hin Hc; [destruct Hin|].
  simpl in H. destruct Hin as [->|Hin].
  - rewrite Hc in H. apply andb_prop in H as [H _]. apply andb_prop in H as [H _].
    now apply N.eqb_eq in H.
  - destruct (is_space x).
    + apply andb_prop in H as [_ H]. exact (IH true c H Hin Hc).
    + exact (IH false c H Hin Hc).
Qed.

Lemma spaced_no_double a : forall b r,
  spaced b (a ++ SPACE :: SPACE :: r) = true -> False.
Proof.
  induction a as [|x a IH]; intros b r H.
  - change (spaced b (SPACE :: SPACE :: r))
      with ((SPACE =? SPACE)%N && negb b
            && ((SPACE =? SPACE)%N && negb true && spaced true r)) in H.
    destruct b, (spaced true r); discriminate.
  - simpl in H. destruct (is_space x).
    + apply andb_prop in H as [_ H]. exact (IH _ _ H).
    + exact (IH _ _ H).
Qed.

Lemma length_rstrip s : (length (rstrip s) <= length s)%nat.
Proof.
  induction s as [|c s IH]; simpl; [lia|].
  destruct (rstrip s); [destruct (is_space c)|]; simpl in *; lia.
Qed.

Lemma length_lstrip s : (length (lstrip s) <= length s)%nat.
Proof.
  induction s as [|c s IH]; simpl; [lia|].
  destruct (is_space c); simpl; lia.
Qed.

Lemma length_collapse p s : forall b, (length (collapse p b s) <= length s)%nat.
Proof.
  induction s as [|c s IH]; intros b; simpl; [lia|].
  destruct (p c); [destruct b|]; simpl;
    match goal with |- context [collapse p ?b' s] => specialize (IH b') end; lia.
Qed.

Lemma length_delete_not p s : (length (delete_not p s) <= length s)%nat.
Proof.
  unfold delete_not. induction s as [|c s IH]; simpl; [lia|].
  destruct (p c); simpl; lia.
Qed.

(** X1: the shape of every cleaned text.  A character of
    [clean_text s] is an ASCII letter, a digit, one of [. , ! ? -], or a
    plain space; no two spaces are adjacent, and the text neither starts
    nor ends with a space. *)
Theorem clean_text_shape (s : str) :
  (forall c, In c (clean_text s) -> c = SPACE \/ is_plain c = true)
  /\ (forall a b, clean_text s <> a ++ SPACE :: SPACE :: b)
  /\ (forall a, clean_text s <> SPACE :: a)
  /\ (forall a, clean_text s <> a ++ [SPACE]).
Proof.
  destruct (clean_text_cleaned s) as (Hk & Hs & Ht).
  repeat split.
  - intros c Hin. destruct (is_space c) eqn:Hc.
    + left. exact (spaced_chars _ _ _ Hs Hin Hc).
    + right. apply kept_plain_or_space; [|exact Hc].
      exact (proj1 (List.Forall_forall _ _) Hk c Hin).
  - intros a b E. rewrite E in Hs. exact (spaced_no_double _ _ _ Hs).
  - intros a E.
    assert (Hc : starts_clean (clean_text s)).
    { rewrite <- Ht. apply rstrip_starts_clean, lstrip_starts_clean. }
    rewrite E in Hc. simpl in Hc. discriminate.
  - intros a E.
    assert (Hr : rstrip (clean_text s) = clean_text s).
    { rewrite <- Ht at 1. unfold strip. rewrite rstrip_idem. exact Ht. }
    rewrite E, rstrip_snoc in Hr. change (is_space SPACE) with true in Hr.
    pose proof (length_rstrip a) as Hl. rewrite Hr, length_app in Hl. simpl in Hl. lia.
Qed.

(** X2: cleaning never makes a text longer. *)
Theorem clean_text_no_longer (s : str) : len (clean_text s) <= len s.
Proof.
  unfold len. apply inj_le.
  destruct s as [|c r]; [simpl; lia|].
  unfold clean_text, strip, sub_runs.
  set (s := c :: r).
  pose proof (length_collapse is_newline s false).
  pose proof (length_delete_not is_kept (collapse is_newline false s)).
  pose proof (length_collapse is_space (delete_not is_kept (collapse is_newline false s)) false).
  pose proof (length_lstrip
                (collapse is_space false (delete_not is_kept (collapse is_newline false s)))).
  pose proof (length_rstrip
                (lstrip (collapse is_space false
                           (delete_not is_kept (collapse is_newline false s))))).
  lia.
Qed.

End Cleaning.

(** * More on [chunk_text] and [create_document_chunks] *)

Module Chunking.

Import CleanText ChunkText.

(** *** Sentences of a cleaned text *)

Fixpoint last_is_space (s : str) : bool :=
  match s with
  | [] => false
  | c :: r => match r with [] => is_space c | _ => last_is_space r end
  end.

Lemma rstrip_fix_last s : rstrip s = s -> last_is_space s = false.
Proof.
  induction s as [|c r IH]; [reflexivity|].
  simpl. destruct (rstrip r) as [|x xs] eqn:E.
  - destruct (is_space c) eqn:Hc; [discriminate|].
    intros H. injection H as <-. reflexivity.
  - intros H. injection H as H. rewrite <- H in *. now apply IH.
Qed.

Lemma last_is_space_tail c r : r <> [] -> last_is_space (c :: r) = last_is_space r.
Proof. now destruct r. Qed.

Lemma clean_text_last s : last_is_space (clean_text s) = false.
Proof.
  destruct (clean_text_cleaned s) as (_ & _ & Ht).
  apply rstrip_fix_last. rewrite <- Ht at 1. unfold strip.
  rewrite rstrip_idem. exact Ht.
Qed.

Lemma split_go_nonempty s : forall sk cur, split_go sk cur s <> [].
Proof.
  induction s as [|c r IH]; intros sk cur; simpl; [discriminate|].
  destruct (is_space c); [destruct sk; [|destruct (after_terminator cur)]|];
    auto; discriminate.
Qed.

Lemma join_sp_cons x l : l <> [] -> join_sp (x :: l) = x ++ SPACE :: join_sp l.
Proof. now destruct l. Qed.

(** On a text whose whitespace is single plain spaces and that does not
    end with one, the pieces joined by a space are the text again. *)
Lemma split_go_join s : forall b cur,
  spaced b s = true -> last_is_space s = false ->
  join_sp (split_go false cur s) = rev cur ++ s
  /\ (b = true -> s <> [] -> join_sp (split_go true [] s) = s).
Proof.
  induction s as [|c r IH]; intros b cur Hs Hl.
  - split; [simpl; now rewrite app_nil_r|easy].
  - simpl in Hs. simpl split_go. destruct (is_space c) eqn:Hc.
    + apply andb_prop in Hs as [Hs Hr]. apply andb_prop in Hs as [Hsp Hb].
      apply N.eqb_eq in Hsp. subst c.
      assert (Hne : r <> []) by (intros ->; simpl in Hl; congruence).
      rewrite (last_is_space_tail _ _ Hne) in Hl.
      destruct (IH true cur Hr Hl) as [_ IH2].
      split; [|intros ->; discriminate].
      destruct (after_terminator cur).
      * rewrite join_sp_cons by apply split_go_nonempty.
        now rewrite IH2.
      * destruct (IH true (SPACE :: cur) Hr Hl) as [IH1 _].
        rewrite IH1. simpl. now rewrite <- app_assoc.
    + assert (Hl' : last_is_space r = false).
      { destruct r; [reflexivity|]. now rewrite last_is_space_tail in Hl. }
      destruct (IH false (c :: cur) Hs Hl') as [IH1 _].
      destruct (IH false [c] Hs Hl') as [IH1' _].
      split.
      * rewrite IH1. simpl. now rewrite <- app_assoc.
      * intros _ _. exact IH1'.
Qed.

Lemma clean_split_join (raw : str) :
  join_sp (split_sentences (clean_text raw)) = clean_text raw.
Proof.
  destruct (clean_text_cleaned raw) as (_ & Hs & _).
  exact (proj1 (split_go_join _ false [] Hs (clean_text_last raw))).
Qed.

(** X3: the sentences of a cleaned text, joined by single spaces, are
    the cleaned text again: on the texts [create_document_chunks] feeds
    to [chunk_text], splitting into sentences loses nothing. *)
Theorem split_sentences_join (raw : str) :
  join_sp (split_sentences (clean_text raw)) = clean_text raw.
Proof. apply clean_split_join. Qed.

(** Every sentence of a non-empty text that does not end with
    whitespace is non-empty. *)
Lemma split_go_pieces s : forall sk cur,
  last_is_space s = false -> (s = [] -> sk = false /\ cur <> []) ->
  Forall (fun piece => piece <> []) (split_go sk cur s).
Proof.
  induction s as [|c r IH]; intros sk cur Hl He.
  - destruct (He eq_refl) as [_ Hc]. constructor; [|constructor].
    intros E. apply Hc. now rewrite <- (rev_involutive cur), E.
  - simpl. destruct (is_space c) eqn:Hc.
    + assert (Hne : r <> []) by (intros ->; simpl in Hl; congruence).
      rewrite (last_is_space_tail _ _ Hne) in Hl.
      destruct sk; [now apply IH|].
      destruct (after_terminator cur) eqn:Ha.
      * constructor; [|now apply IH].
        destruct cur; [discriminate|]. simpl. now destruct (rev cur).
      * apply IH; [exact Hl|easy].
    + apply IH; [|now intros _].
      destruct r; [reflexivity|]. now rewrite last_is_space_tail in Hl.
Qed.

Lemma clean_sentences_nonempty raw :
  clean_text raw <> [] ->
  Forall (fun piece => piece <> []) (split_sentences (clean_text raw)).
Proof.
  intros Hne. apply split_go_pieces; [apply clean_text_last|easy].
Qed.

(** *** Runs of the loop *)

Lemma fold_feed_app cs ov a : forall b st,
  fold_left (feed cs ov) (a ++ b) st
  = fold_left (feed cs ov) b (fold_left (feed cs ov) a st).
Proof. induction a as [|x a IH]; intros b st; simpl; [reflexivity|apply IH]. Qed.

Lemma feed_current_nonempty cs ov st s : current_chunk (feed cs ov st s) <> [].
Proof.
  unfold feed.
  destruct ((current_length st + len s >? cs) && nonempty (current_chunk st)).
  - destruct (overlap_seed ov (current_chunk st)). simpl. apply snoc_neq_nil.
  - simpl. apply snoc_neq_nil.
Qed.

Lemma flush_nonempty st : current_chunk st <> [] -> flush st <> [].
Proof.
  unfold flush. destruct (current_chunk st); [easy|]. intros _. simpl.
  apply snoc_neq_nil.
Qed.

(** X5: [chunk_text] returns no segment for the empty text only. *)
Theorem chunk_text_empty_iff (text : str) (chunk_size overlap : Z) :
  chunk_text text chunk_size overlap = [] <-> text = [].
Proof.
  split; [|now intros ->].
  destruct text as [|c r]; [reflexivity|]. intros H. exfalso. revert H.
  unfold chunk_text.
  destruct (split_sentences (c :: r)) as [|s ss] eqn:E using rev_ind.
  - now apply split_go_nonempty in E.
  - rewrite fold_feed_app. simpl. apply flush_nonempty, feed_current_nonempty.
Qed.

(** As long as the sentences fit, the loop only appends. *)
Lemma fold_feed_fits cs ov ss : forall st,
  current_length st = total_len (current_chunk st) ->
  total_len (current_chunk st) + total_len ss <= cs ->
  fold_left (feed cs ov) ss st
  = {| chunks := chunks st;
       current_chunk := current_chunk st ++ ss;
       current_length := total_len (current_chunk st ++ ss) |}.
Proof.
  induction ss as [|s ss IH]; intros st Hlen Hfit; simpl.
  - rewrite app_nil_r, <- Hlen. now destruct st.
  - simpl in Hfit. pose proof (total_len_nonneg ss) as Hss.
    assert (Hstep : feed cs ov st s
                    = {| chunks := chunks st;
                         current_chunk := current_chunk st ++ [s];
                         current_length := current_length st + len s |}).
    { unfold feed.
      replace (current_length st + len s >? cs) with false; [reflexivity|].
      symmetry. rewrite Z.gtb_ltb. apply Z.ltb_ge. lia. }
    rewrite Hstep, IH; simpl.
    + now rewrite <- app_assoc.
    + rewrite total_len_app. simpl. lia.
    + rewrite total_len_app. simpl. lia.
Qed.

Lemma single_segment (text : str) (chunk_size overlap : Z) :
  text <> [] ->
  total_len (split_sentences text) <= chunk_size ->
  chunk_text text chunk_size overlap = [join_sp (split_sentences text)].
Proof.
  intros Hne Hfit. unfold chunk_text. destruct text as [|c r]; [contradiction|].
  rewrite fold_feed_fits; [|reflexivity|exact Hfit].
  unfold flush. simpl.
  destruct (split_sentences (c :: r)) eqn:E; [now apply split_go_nonempty in E|].
  reflexivity.
Qed.

(** X4: a non-empty text whose sentences' lengths add up to at most
    [chunk_size] comes back as one segment, its sentences joined by
    single spaces; no overlap is involved. *)
Theorem chunk_text_single_segment (text : str) (chunk_size overlap : Z) :
  text <> [] ->
  total_len (split_sentences text) <= chunk_size ->
  chunk_text text chunk_size overlap = [join_sp (split_sentences text)].
Proof. apply single_segment. Qed.

Lemma chunk_text_single_segment_witness :
  (py "Led teams. Cut costs." <> []
   /\ total_len (split_sentences (py "Led teams. Cut costs.")) <= 40)
  /\ chunk_text (py "Led teams. Cut costs.") 40 10
     = [join_sp (split_sentences (py "Led teams. Cut costs."))].
Proof.
  assert (H1 : py "Led teams. Cut costs." <> []) by discriminate.
  assert (H2 : total_len (split_sentences (py "Led teams. Cut costs.")) <= 40)
    by (vm_compute; discriminate).
  split; [split; assumption|].
  exact (chunk_text_single_segment (py "Led teams. Cut costs.") 40 10 H1 H2).
Defined.

(** *** Nothing lost, nothing invented *)










(** *** Chunks of a document *)

Lemma join_sp_nonempty g :
  g <> [] -> Forall (fun piece => piece <> []) g -> join_sp g <> [].
Proof.
  destruct g as [|x l]; [easy|]. intros _ H. inversion H as [|? ? Hx _]; subst.
  destruct l; [exact Hx|].
  rewrite join_sp_cons by discriminate. now destruct x.
Qed.

Lemma clean_segments_nonempty raw cs ov seg :
  In seg (chunk_text (clean_text raw) cs ov) -> seg <> [].
Proof.
  rewrite chunk_text_groups. intros Hin.
  apply in_map_iff in Hin as (g & <- & Hg).
  destruct (clean_text raw) as [|c r] eqn:E; [destruct Hg|].
  destruct (chunk_groups_inv cs ov (c :: r)) as [Hall _].
  pose proof (proj1 (List.Forall_forall _ _) Hall g Hg) as [Hne _].
  apply join_sp_nonempty; [exact Hne|].
  apply List.Forall_forall. intros x Hx.
  assert (Hs : Forall (fun piece => piece <> []) (split_sentences (clean_text raw)))
    by (apply clean_sentences_nonempty; rewrite E; discriminate).
  rewrite E in Hs.
  exact (proj1 (List.Forall_forall _ _) Hs x (chunk_groups_sentences _ _ _ g x Hg Hx)).
Qed.

(** X7: no chunk of a document has an empty text. *)
Theorem create_document_chunks_no_empty_text (now : str) (doc : Document) (c : Chunk) :
  In c (create_document_chunks now doc) -> text c <> [].
Proof.
  intros Hin. apply (in_map text) in Hin.
  rewrite DocumentChunks.chunk_texts_in_order in Hin.
  destruct (get_default (doc_content doc) []) as [|x r]; [destruct Hin|].
  exact (clean_segments_nonempty _ _ _ _ Hin).
Qed.

Lemma create_document_chunks_no_empty_text_witness :
  let doc := {| doc_content := Some (py "Led teams. Cut costs.");
                doc_filename := Some (py "cv.txt");
                doc_file_type := Some (py "txt") |} in
  let c := {| text := py "Led teams. Cut costs.";
              metadata := {| cm_base := extract_metadata (py "2024-01-01") doc;
                             chunk_index := 0 |} |} in
  In c (create_document_chunks (py "2024-01-01") doc) /\ text c <> [].
Proof.
  intros doc c.
  assert (H : In c (create_document_chunks (py "2024-01-01") doc))
    by (left; reflexivity).
  split; [exact H|].
  exact (create_document_chunks_no_empty_text (py "2024-01-01") doc c H).
Defined.

Lemma total_len_le_join ss : ss <> [] -> total_len ss <= len (join_sp ss).
Proof.
  intros Hne. rewrite (len_join_sp ss Hne).
  assert (1 <= len ss) by (destruct ss; [contradiction|]; unfold len; simpl length; lia).
  lia.
Qed.

(** X8: a document whose cleaned content is non-empty and at most 500
    characters long becomes exactly one chunk, with index 0, whose text
    is the whole cleaned content. *)
Theorem short_document_one_chunk (now : str) (doc : Document) (raw : str) :
  doc_content doc = Some raw ->
  clean_text raw <> [] ->
  len (clean_text raw) <= DEFAULT_CHUNK_SIZE ->
  create_document_chunks now doc
  = [{| text := clean_text raw;
        metadata := {| cm_base := extract_metadata now doc; chunk_index := 0 |} |}].
Proof.
  intros Hraw Hne Hlen. unfold create_document_chunks. rewrite Hraw. simpl get_default.
  destruct raw as [|x r]; [now elim Hne|].
  rewrite single_segment; [|exact Hne|].
  - rewrite clean_split_join. reflexivity.
  - etransitivity; [apply total_len_le_join, split_go_nonempty|].
    now rewrite clean_split_join.
Qed.

Lemma short_document_one_chunk_witness :
  let doc := {| doc_content := Some (py "Led  teams.  Cut costs (2024)");
                doc_filename := Some (py "cv.txt");
                doc_file_type := Some (py "txt") |} in
  let raw := py "Led  teams.  Cut costs (2024)" in
  (doc_content doc = Some raw /\ clean_text raw <> []
   /\ len (clean_text raw) <= DEFAULT_CHUNK_SIZE)
  /\ create_document_chunks (py "2024-01-01") doc
     = [{| text := clean_text raw;
           metadata := {| cm_base := extract_metadata (py "2024-01-01") doc;
                          chunk_index := 0 |} |}].
Proof.
  intros doc raw.
  assert (H1 : doc_content doc = Some raw) by reflexivity.
  assert (H2 : clean_text raw <> []) by (vm_compute; discriminate).
  assert (H3 : len (clean_text raw) <= DEFAULT_CHUNK_SIZE) by (vm_compute; discriminate).
  split; [repeat split; assumption|].
  exact (short_document_one_chunk (py "2024-01-01") doc raw H1 H2 H3).
Defined.

End Chunking.

(** * Storage identities *)

Module Identity.

Lemma py_injective a b : py a = py b -> a = b.
Proof.
  unfold py. intros H.
  rewrite <- (string_of_list_ascii_of_string a), <- (string_of_list_ascii_of_string b).
  f_equal. revert H.
  generalize (list_ascii_of_string a) (list_ascii_of_string b).
  intros l. induction l as [|x l IH]; intros [|y m] H; try discriminate; [reflexivity|].
  injection H as Hx Hl. f_equal; [|now apply IH].
  now rewrite <- (ascii_N_embedding x), <- (ascii_N_embedding y), Hx.
Qed.

Lemma to_int_norm z : Z.to_int z = Decimal.norm (Z.to_int z).
Proof. rewrite <- DecimalZ.to_of. now rewrite DecimalZ.of_to. Qed.

Lemma to_int_not_nil z : Z.to_int z <> Decimal.Pos Decimal.Nil
                         /\ Z.to_int z <> Decimal.Neg Decimal.Nil.
Proof.
  rewrite to_int_norm. destruct (Z.to_int z) as [d|d]; simpl.
  - unfold Decimal.unorm. destruct (Decimal.nzhead d); split; discriminate.
  - destruct (Decimal.nzhead d); split; discriminate.
Qed.

Lemma str_of_int_injective a b : str_of_int a = str_of_int b -> a = b.
Proof.
  unfold str_of_int. intros H. apply py_injective in H.
  apply (f_equal NilZero.int_of_string) in H.
  destruct (to_int_not_nil a), (to_int_not_nil b).
  rewrite !NilZero.isi in H by assumption.
  injection H as H. apply (f_equal Z.of_int) in H.
  now rewrite !DecimalZ.of_to in H.
Qed.

Definition UNDERSCORE : char := 95%N.

Lemma uint_no_underscore d : ~ In UNDERSCORE (py (NilEmpty.string_of_uint d)).
Proof.
  induction d; simpl; intros H; try contradiction;
    destruct H as [H|H]; try discriminate; auto.
Qed.

Lemma str_of_int_no_underscore z : ~ In UNDERSCORE (str_of_int z).
Proof.
  unfold str_of_int. destruct (Z.to_int z) as [d|d];
    unfold NilZero.string_of_int, NilZero.string_of_uint.
  - destruct d; try apply uint_no_underscore.
    intros [H|[]]. discriminate.
  - change (py (String "-" ?s)) with (45%N :: py s).
    intros [H|H]; [discriminate|]. revert H.
    destruct d; try apply uint_no_underscore.
    intros [H|[]]. discriminate.
Qed.

(** Two lists cut at the last occurrence of [x] are cut alike. *)
Lemma cut_at_last {A} (x : A) (a : list A) : forall a' b b',
  a ++ x :: b = a' ++ x :: b' -> ~ In x b -> ~ In x b' -> a = a' /\ b = b'.
Proof.
  induction a as [|y a IH]; intros [|y' a'] b b' H Hb Hb'; simpl in H.
  - injection H as H. now split.
  - injection H as Hy H. exfalso. apply Hb. rewrite H. apply in_elt.
  - injection H as Hy H. exfalso. apply Hb'. rewrite <- H. apply in_elt.
  - injection H as Hy H. destruct (IH _ _ _ H Hb Hb') as [-> ->]. now subst.
Qed.

Lemma id_injective f1 i1 f2 i2 :
  f1 ++ py "_" ++ str_of_int i1 = f2 ++ py "_" ++ str_of_int i2 -> f1 = f2 /\ i1 = i2.
Proof.
  change (py "_") with [UNDERSCORE]. simpl. intros H.
  apply cut_at_last in H; try apply str_of_int_no_underscore.
  destruct H as [Hf Hi]. split; [exact Hf|]. now apply str_of_int_injective.
Qed.

(** X9: the storage id of a chunk determines its file name and its
    index: two chunks with the same id come from files of the same name
    and sit at the same position (so only then does an upsert
    overwrite). *)
Theorem chunk_id_injective (c1 c2 : Chunk) :
  chunk_id c1 = chunk_id c2 ->
  filename (cm_base (metadata c1)) = filename (cm_base (metadata c2))
  /\ chunk_index (metadata c1) = chunk_index (metadata c2).
Proof. unfold chunk_id. apply id_injective. Qed.

Lemma chunk_id_injective_witness :
  chunk_id Toy.a_chunk
  = chunk_id {| text := py "Other text."; metadata := Toy.a_metadata 0 |}
  /\ filename (cm_base (metadata Toy.a_chunk)) = filename (cm_base (Toy.a_metadata 0))
  /\ chunk_index (metadata Toy.a_chunk) = chunk_index (Toy.a_metadata 0).
Proof.
  split; [reflexivity|].
  apply (chunk_id_injective Toy.a_chunk
           {| text := py "Other text."; metadata := Toy.a_metadata 0 |}).
  reflexivity.
Defined.

(** *** Ids of the chunks gathered for indexing *)

Definition effective_filename (doc : Document) : str :=
  get_default (doc_filename doc) (py "unknown").

Lemma chunk_ids_of_document now doc :
  map chunk_id (create_document_chunks now doc)
  = map (fun k => effective_filename doc ++ py "_" ++ str_of_int (Z.of_nat k))
        (seq 0 (length (create_document_chunks now doc))).
Proof.
  unfold create_document_chunks.
  destruct (get_default (doc_content doc) []) as [|c r]; [reflexivity|].
  set (segs := chunk_text _ _ _).
  rewrite length_map, map_map. unfold enumerate.
  rewrite DocumentChunks.length_enumerate_from.
  transitivity (map (fun i => effective_filename doc ++ py "_" ++ str_of_int i)
                  (map fst (enumerate_from 0 segs))).
  - rewrite map_map. apply map_ext. now intros [i seg].
  - rewrite DocumentChunks.enumerate_from_indices, map_map. reflexivity.
Qed.

Lemma document_ids_distinct now doc : List.NoDup (map chunk_id (create_document_chunks now doc)).
Proof.
  rewrite chunk_ids_of_document.
  generalize (length (create_document_chunks now doc)) as n.
  intros n. generalize 0%nat as start. induction n as [|n IH]; intros start; cbn [seq map].
  - constructor.
  - apply List.NoDup_cons; [|apply IH].
    intros Hin. apply in_map_iff in Hin as (k & Hk & Hin).
    apply id_injective in Hk as [_ Hk]. apply in_seq in Hin. lia.
Qed.

Lemma document_ids_filename now doc id :
  In id (map chunk_id (create_document_chunks now doc)) ->
  exists i, id = effective_filename doc ++ py "_" ++ str_of_int i.
Proof.
  rewrite chunk_ids_of_document. intros Hin.
  apply in_map_iff in Hin as (k & <- & _). eauto.
Qed.

Lemma collected_ids_filename documents id :
  In id (map chunk_id (collect_chunks documents)) ->
  exists d i, In d documents
              /\ id = effective_filename (snd d) ++ py "_" ++ str_of_int i.
Proof.
  unfold collect_chunks. induction documents as [|d ds IH]; simpl; [easy|].
  rewrite map_app. intros Hin. apply in_app_or in Hin as [Hin|Hin].
  - destruct (document_ids_filename _ _ _ Hin) as [i ->]. eauto.
  - destruct (IH Hin) as (d' & i & Hd & ->). eauto.
Qed.

(** X10: when the documents gathered for indexing have pairwise
    different file names (a missing name counting as ["unknown"]), all
    their chunks get pairwise different storage ids: one upsert of the
    whole list overwrites none of its own rows. *)
Theorem collected_ids_distinct (documents : list (str * Document)) :
  List.NoDup (map (fun d => effective_filename (snd d)) documents) ->
  List.NoDup (map chunk_id (collect_chunks documents)).
Proof.
  induction documents as [|d ds IH]; intros Hnd; [apply List.NoDup_nil|].
  apply List.NoDup_cons_iff in Hnd as [Hd Hds].
  change (collect_chunks (d :: ds))
    with (create_document_chunks (fst d) (snd d) ++ collect_chunks ds).
  rewrite map_app. apply List.NoDup_app.
  - apply document_ids_distinct.
  - now apply IH.
  - intros id Hin Hin'.
    destruct (document_ids_filename _ _ _ Hin) as [i ->].
    destruct (collected_ids_filename _ _ Hin') as (d' & i' & Hd' & E).
    apply id_injective in E as [E _]. apply Hd. rewrite E.
    exact (in_map (fun d => effective_filename (snd d)) ds d' Hd').
Qed.

Lemma collected_ids_distinct_witness :
  let a := {| doc_content := Some (py "Led teams."); doc_filename := Some (py "cv.txt");
              doc_file_type := Some (py "txt") |} in
  let b := {| doc_content := Some (py "Cut costs."); doc_filename := Some (py "notes.txt");
              doc_file_type := Some (py "txt") |} in
  let documents := [(py "2024-01-01", a); (py "2024-01-02", b)] in
  List.NoDup (map (fun d => effective_filename (snd d)) documents)
  /\ List.NoDup (map chunk_id (collect_chunks documents)).
Proof.
  intros a b documents.
  assert (H : List.NoDup (map (fun d => effective_filename (snd d)) documents)).
  { apply List.NoDup_cons; [|apply List.NoDup_cons; [|apply List.NoDup_nil]];
      simpl; intros Hin;
      repeat (destruct Hin as [Hin|Hin]; [discriminate|]); exact Hin. }
  split; [exact H|]. exact (collected_ids_distinct documents H).
Defined.

End Identity.

(** * More on the vector index *)

Module IndexOps.

Section Writes.
Context {C : Collaborators}.

Lemma create_embeddings_returns (texts : list str) (w : world) :
  exists vs w', create_embeddings texts w = (Ok vs, w') /\ store w' = store w.
Proof.
  unfold create_embeddings, try_except, on_ext, bind, logger, ret.
  destruct texts as [|t ts]; [eauto|].
  destruct (embed_documents (t :: ts) (ext w)) as [[vs|e] x]; simpl; eauto.
Qed.

Lemma create_embeddings_success (texts : list str) (w : world) vs x :
  texts <> [] ->
  embed_documents texts (ext w) = (Ok vs, x) ->
  create_embeddings texts w = (Ok vs, {| store := store w; ext := x; log := log w |}).
Proof.
  intros Hne He. unfold create_embeddings, try_except, on_ext.
  destruct texts as [|t ts]; [contradiction|]. now rewrite He.
Qed.

(** X11: [add_documents] never raises, whatever its collaborators do;
    given no chunk it calls none of them and only logs a warning. *)
Theorem add_documents_returns (self : RAGPipeline) (chunks : list Chunk) (w : world) :
  exists w',
    add_documents self chunks w = (Ok tt, w')
    /\ (chunks = [] ->
        w' = {| store := store w; ext := ext w;
                log := log w ++ [(WARNING, py "No chunks to add.")] |}).
Proof.
  destruct chunks as [|c0 cs]; [eexists; split; [reflexivity|reflexivity]|].
  unfold add_documents, try_except, bind.
  destruct (create_embeddings_returns (map text (c0 :: cs)) w) as (vs & w1 & -> & _).
  destruct vs as [|v vs].
  - unfold logger. eexists. split; [reflexivity|discriminate].
  - unfold with_collection, on_store, raise, logger.
    destruct (collection self); simpl.
    + destruct (collection_upsert _ _ _ _ (store w1)) as [[[]|e] st]; simpl;
        eexists; (split; [reflexivity|discriminate]).
    + eexists. split; [reflexivity|discriminate].
Qed.

(** X12: with a collection at hand and vectors returned for the chunks,
    [add_documents] issues one upsert, of the chunks' texts, the
    vectors, the chunks' metadata and their ids, all in chunk order;
    the store is what that upsert leaves, and the log tells whether it
    succeeded. *)
Theorem add_documents_upserts (self : RAGPipeline) (chunks : list Chunk) (w : world)
    (handle : collection_handle) (vs : list vector) (x : Ext) :
  chunks <> [] ->
  collection self = Some handle ->
  embed_documents (map text chunks) (ext w) = (Ok vs, x) ->
  vs <> [] ->
  let upsert :=
    collection_upsert (map text chunks) vs (map metadata chunks) (map chunk_id chunks)
      (store w) in
  add_documents self chunks w
  = (Ok tt,
     {| store := snd upsert;
        ext := x;
        log := log w
               ++ [match fst upsert with
                   | Ok _ =>
                       (INFO, py "Added/Updated " ++ str_of_int (len chunks)
                              ++ py " chunks in collection "
                              ++ repr (collection_name self) ++ py ".")
                   | Raise e =>
                       (ERROR, py "Failed to add documents to vector store: "
                               ++ exn_str e)
                   end] |}).
Proof.
  intros Hne Hc He Hvs upsert. subst upsert.
  destruct chunks as [|c0 cs]; [contradiction|].
  unfold add_documents, try_except, bind.
  rewrite (create_embeddings_success _ w vs x) by (try exact He; discriminate).
  destruct vs as [|v vs]; [contradiction|].
  unfold with_collection, on_store, logger. rewrite Hc. simpl.
  destruct (collection_upsert _ _ _ _ (store w)) as [[[]|e] st]; reflexivity.
Qed.

(** X13: without a collection ([setup_vectorstore] had failed), the
    vectors are computed but nothing is written: the call returns with
    the store as it was and an error in the log. *)
Theorem add_documents_without_collection (self : RAGPipeline) (chunks : list Chunk)
    (w : world) (vs : list vector) (x : Ext) :
  chunks <> [] ->
  collection self = None ->
  embed_documents (map text chunks) (ext w) = (Ok vs, x) ->
  vs <> [] ->
  add_documents self chunks w
  = (Ok tt,
     {| store := store w;
        ext := x;
        log := log w
               ++ [(ERROR, py "Failed to add documents to vector store: "
                           ++ py "'NoneType' object has no attribute 'upsert'")] |}).
Proof.
  intros Hne Hc He Hvs.
  destruct chunks as [|c0 cs]; [contradiction|].
  unfold add_documents, try_except, bind.
  rewrite (create_embeddings_success _ w vs x) by (try exact He; discriminate).
  destruct vs as [|v vs]; [contradiction|].
  unfold with_collection, raise, logger. rewrite Hc. reflexivity.
Qed.
End Writes.

Lemma add_documents_upserts_witness :
  let C := Toy.collaborators true (fun _ => false) in
  let w := Toy.a_world true (fun _ => false) [Toy.old_row] 0 in
  ([Toy.a_chunk] <> []
   /\ collection Toy.pipeline = Some CollectionHandle
   /\ embed_documents (map text [Toy.a_chunk]) (ext w) = (Ok [[10]], 1%nat)
   /\ [[10]] <> ([] : list (list Z)))
  /\ add_documents Toy.pipeline [Toy.a_chunk] w
     = (Ok tt, {| store := [Toy.new_row]; ext := 1%nat;
                  log := [(INFO, py "Added/Updated 1 chunks in collection 'job_assistant'.")] |}).
Proof.
  intros C w.
  assert (H1 : [Toy.a_chunk] <> []) by discriminate.
  assert (H2 : collection Toy.pipeline = Some CollectionHandle) by reflexivity.
  assert (H3 : embed_documents (map text [Toy.a_chunk]) (ext w) = (Ok [[10]], 1%nat))
    by reflexivity.
  assert (H4 : [[10]] <> ([] : list (list Z))) by discriminate.
  split; [repeat split; assumption|].
  exact (add_documents_upserts Toy.pipeline [Toy.a_chunk] w CollectionHandle
           [[10]] 1%nat H1 H2 H3 H4).
Defined.

Lemma add_documents_without_collection_witness :
  let C := Toy.collaborators true (fun _ => false) in
  let w := Toy.a_world true (fun _ => false) [Toy.old_row] 0 in
  let self := {| collection_name := py "job_assistant"; collection := None |} in
  ([Toy.a_chunk] <> []
   /\ collection self = None
   /\ embed_documents (map text [Toy.a_chunk]) (ext w) = (Ok [[10]], 1%nat)
   /\ [[10]] <> ([] : list (list Z)))
  /\ add_documents self [Toy.a_chunk] w
     = (Ok tt,
        {| store := store w; ext := 1%nat;
           log := log w
                  ++ [(ERROR, py "Failed to add documents to vector store: "
                              ++ py "'NoneType' object has no attribute 'upsert'")] |}).
Proof.
  intros C w self.
  assert (H1 : [Toy.a_chunk] <> []) by discriminate.
  assert (H2 : collection self = None) by reflexivity.
  assert (H3 : embed_documents (map text [Toy.a_chunk]) (ext w) = (Ok [[10]], 1%nat))
    by reflexivity.
  assert (H4 : [[10]] <> ([] : list (list Z))) by discriminate.
  split; [repeat split; assumption|].
  exact (add_documents_without_collection self [Toy.a_chunk] w [[10]] 1%nat H1 H2 H3 H4).
Defined.

Section Reads.
Context {C : Collaborators}.

Lemma collect_all_ok {A B} (f : A -> result B) (g : A -> B) (l : list A) :
  (forall a, In a l -> f a = Ok (g a)) -> collect f l = Ok (map g l).
Proof.
  induction l as [|a l IH]; intros H; simpl; [reflexivity|].
  rewrite (H a (or_introl eq_refl)). simpl.
  rewrite IH by (intros b Hb; apply H; now right). reflexivity.
Qed.

Lemma collect_ok_map {A B D} (f : A -> result B) (g : B -> D) (h : A -> D) (l : list A) :
  forall rows, collect f l = Ok rows ->
  (forall a b, f a = Ok b -> g b = h a) -> map g rows = map h l.
Proof.
  induction l as [|a l IH]; intros rows H Hg; simpl in H.
  - now injection H as <-.
  - destruct (f a) as [b|e] eqn:Ea; [|discriminate]. simpl in H.
    destruct (collect f l) as [bs|e]; [|discriminate]. simpl in H.
    injection H as <-. simpl. rewrite (Hg a b Ea). f_equal. now apply IH.
Qed.

Lemma map_nth_seq {A} (l : list A) (d : A) :
  map (fun i => nth i l d) (seq 0 (length l)) = l.
Proof.
  induction l as [|x l IH]; [reflexivity|].
  simpl length. cbn [seq map]. rewrite <- seq_shift, map_map. simpl. now rewrite IH.
Qed.

Lemma map_nth_error_seq {A} (l : list A) :
  map (nth_error l) (seq 0 (length l)) = map Some l.
Proof.
  induction l as [|x l IH]; [reflexivity|].
  simpl length. cbn [seq map]. rewrite <- seq_shift, map_map. simpl.
  f_equal. rewrite <- IH. now apply map_ext.
Qed.

Lemma subscript_nth {A} (l : list A) (i : nat) (d : A) :
  (i < length l)%nat -> subscript l i = Ok (nth i l d).
Proof.
  intros H. unfold subscript. now rewrite (nth_error_nth' l d H).
Qed.

Lemma subscript_ok {A} (l : list A) (i : nat) (a d : A) :
  subscript l i = Ok a -> a = nth i l d.
Proof.
  unfold subscript. destruct (nth_error l i) eqn:E; [|discriminate].
  intros H. injection H as <-. symmetry. now apply nth_error_nth.
Qed.

Definition no_metadata : ChunkMetadata :=
  {| cm_base := {| filename := []; file_type := []; date_processed := []; word_count := 0 |};
     chunk_index := 0 |}.

(** X14: when the store answers a query with aligned lists (ids,
    documents and metadata of one length, distances of that length or
    not reported at all), the formatted results are one row per id, in
    the store's order, each with its own document, metadata and
    distance ([None] when distances are not reported). *)
Theorem format_results_aligned (results : QueryResult distance)
    (ids docs : list str) (metas : list ChunkMetadata) (dists : option (list distance)) :
  q_ids results = [ids] ->
  q_documents results = Some [docs] ->
  q_metadatas results = Some [metas] ->
  q_distances results = option_map (fun ds => [ds]) dists ->
  length docs = length ids ->
  length metas = length ids ->
  (forall ds, dists = Some ds -> length ds = length ids) ->
  exists rows,
    format_results results = Ok rows
    /\ map sr_id rows = ids
    /\ map sr_text rows = docs
    /\ map sr_metadata rows = metas
    /\ map sr_distance rows
       = match dists with
         | Some ds => map Some ds
         | None => map (fun _ => None) ids
         end.
Proof.
  intros Hi Hd Hm Hq Ld Lm Lq.
  set (row := fun i =>
         {| sr_id := nth i ids []; sr_text := nth i docs [];
            sr_metadata := nth i metas no_metadata;
            sr_distance := match dists with
                           | Some ds => nth_error ds i
                           | None => None
                           end |}).
  exists (map row (seq 0 (length ids))).
  split.
  - unfold format_results. rewrite Hi. apply collect_all_ok.
    intros i Hin. apply in_seq in Hin. unfold format_row.
    rewrite Hi, Hd, Hm, Hq. simpl subscript_opt. simpl subscript at 1 3 5.
    simpl rbind at 2 4 6.
    rewrite (subscript_nth ids i []) by lia.
    rewrite (subscript_nth docs i []) by lia.
    rewrite (subscript_nth metas i no_metadata) by lia.
    simpl. destruct dists as [ds|]; simpl; [|reflexivity].
    unfold subscript. specialize (Lq ds eq_refl).
    destruct (nth_error ds i) eqn:E.
    + subst row. simpl. now rewrite E.
    + apply nth_error_None in E. lia.
  - rewrite !map_map. simpl. repeat split.
    + apply map_nth_seq.
    + rewrite <- Ld. apply map_nth_seq.
    + rewrite <- Lm. apply map_nth_seq.
    + destruct dists as [ds|].
      * rewrite <- (Lq ds eq_refl). apply map_nth_error_seq.
      * clear. generalize 0%nat. induction ids as [|x l IH]; intros k; simpl;
          [reflexivity|now rewrite IH].
Qed.

Lemma format_results_ids (results : QueryResult distance) rows :
  format_results results = Ok rows -> map sr_id rows = hd [] (q_ids results).
Proof.
  unfold format_results. destruct (q_ids results) as [|ids0 rest] eqn:Hi.
  - now intros [= <-].
  - intros H. simpl. rewrite <- (map_nth_seq ids0 []) at 1.
    apply (collect_ok_map _ _ _ _ _ H).
    intros i b Hb. unfold format_row in Hb. rewrite Hi in Hb. simpl subscript at 1 in Hb.
    simpl rbind at 2 in Hb.
    destruct (subscript ids0 i) as [id|e] eqn:Eid; [|discriminate].
    apply (subscript_ok _ _ _ []) in Eid. subst id. simpl in Hb.
    repeat match type of Hb with
           | rbind ?r _ = Ok _ => destruct r; [simpl in Hb|discriminate]
           end.
    now injection Hb as <-.
Qed.

(** X15: [search_similar] never raises and never returns part of an
    answer: its result is the empty list, or one row per id the store
    returned, in the store's order, after a successful embedding and a
    successful query. *)
Theorem search_similar_all_or_nothing (self : RAGPipeline) (query : str) (n_results : Z)
    (w : world) :
  exists rows w',
    search_similar self query n_results w = (Ok rows, w')
    /\ (rows = []
        \/ exists v x results st,
             embed_query query (ext w) = (Ok v, x)
             /\ collection_query v n_results (store w) = (Ok results, st)
             /\ map sr_id rows = hd [] (q_ids results)
             /\ w' = {| store := st; ext := x; log := log w |}).
Proof.
  unfold search_similar, try_except, bind, on_ext, with_collection, on_store,
    raise, lift, logger, ret.
  destruct (embed_query query (ext w)) as [[v|e] x] eqn:Ee; [|eauto].
  destruct (collection self); simpl; [|eauto].
  destruct (collection_query v n_results (store w)) as [[qr|e] st] eqn:Eq; [|eauto].
  destruct (format_results qr) as [rows|e] eqn:Ef; [|eauto].
  exists rows. eexists. split; [reflexivity|]. right.
  exists v, x, qr, st.
  split; [reflexivity|]. split; [first [reflexivity|exact Eq]|].
  split; [now apply format_results_ids|reflexivity].
Qed.
End Reads.

Lemma format_results_aligned_witness :
  let C := Toy.collaborators true (fun _ => false) in
  let results : QueryResult distance :=
    {| q_ids := [[py "cv.txt_0"]]; q_documents := Some [[py "Led teams."]];
       q_metadatas := Some [[Toy.a_metadata 0]]; q_distances := Some [[7]] |} in
  (q_ids results = [[py "cv.txt_0"]]
   /\ q_documents results = Some [[py "Led teams."]]
   /\ q_metadatas results = Some [[Toy.a_metadata 0]]
   /\ q_distances results = option_map (fun ds => [ds]) (Some [7])
   /\ length [py "Led teams."] = length [py "cv.txt_0"]
   /\ length [Toy.a_metadata 0] = length [py "cv.txt_0"]
   /\ (forall ds : list Z, Some [7] = Some ds -> length ds = length [py "cv.txt_0"]))
  /\ exists rows,
    format_results results = Ok rows
    /\ map sr_id rows = [py "cv.txt_0"]
    /\ map sr_text rows = [py "Led teams."]
    /\ map sr_metadata rows = [Toy.a_metadata 0]
    /\ map sr_distance rows = map Some [7].
Proof.
  intros C results.
  assert (H : forall ds : list Z, Some [7] = Some ds -> length ds = length [py "cv.txt_0"])
    by (intros ds [= <-]; reflexivity).
  split; [repeat split; exact H|].
  exact (format_results_aligned results [py "cv.txt_0"] [py "Led teams."]
           [Toy.a_metadata 0] (Some [7]) eq_refl eq_refl eq_refl eq_refl eq_refl eq_refl H).
Defined.

End IndexOps.

(** * The collection's life cycle *)

Module LifecycleOps.

Section Lifecycle.
Context {C : Collaborators} {V : VectorStoreClient}.

(** X16: [get_collection_count] never raises and never touches the
    embedding or chat services.  Without a collection it answers 0
    without asking the store; with one it answers the store's count, or
    0 (and an error in the log) when counting raises. *)
Theorem get_collection_count_returns (self : RAGPipeline) (w : world) :
  exists n w',
    get_collection_count self w = (Ok n, w')
    /\ ext w' = ext w
    /\ match collection self with
       | None => n = 0 /\ w' = w
       | Some _ =>
           store w' = snd (collection_count (store w))
           /\ match fst (collection_count (store w)) with
              | Ok k => n = k /\ log w' = log w
              | Raise e =>
                  n = 0
                  /\ log w' = log w ++ [(ERROR, py "Failed to get collection count: "
                                                ++ exn_str e)]
              end
       end.
Proof.
  unfold get_collection_count, try_except, on_store, bind, logger, ret.
  destruct (collection self).
  - destruct (collection_count (store w)) as [[k|e] st]; simpl;
      eexists; eexists; (split; [reflexivity|]); simpl; auto.
  - exists 0, w. auto.
Qed.

Lemma delete_collection_returns (self : RAGPipeline) (w : world) :
  exists entry,
    delete_collection self w
    = (Ok tt,
       {| store := snd (client_delete_collection (collection_name self) (store w));
          ext := ext w;
          log := log w ++ [entry] |}).
Proof.
  unfold delete_collection, try_except, bind, on_store, logger.
  destruct (client_delete_collection (collection_name self) (store w)) as [[[]|e] st].
  - eexists. reflexivity.
  - destruct e; eexists; reflexivity.
Qed.

Lemma setup_vectorstore_returns (self : RAGPipeline) (w : world) :
  exists entry,
    setup_vectorstore self w
    = (Ok (match fst (client_get_or_create_collection (collection_name self) (store w)) with
           | Ok _ => {| collection_name := collection_name self;
                        collection := Some CollectionHandle |}
           | Raise _ => self
           end),
       {| store := snd (client_get_or_create_collection (collection_name self) (store w));
          ext := ext w;
          log := log w ++ [entry] |}).
Proof.
  unfold setup_vectorstore, try_except, bind, on_store, logger, ret.
  destruct (client_get_or_create_collection (collection_name self) (store w))
    as [[[]|e] st]; eexists; reflexivity.
Qed.

(** The two client calls of a reset, in order. *)
Definition after_delete (self : RAGPipeline) (w : world) : result unit * Store :=
  client_delete_collection (collection_name self) (store w).

Definition after_create (self : RAGPipeline) (w : world) : result unit * Store :=
  client_get_or_create_collection (collection_name self) (snd (after_delete self w)).

(** X17: [reset_vectorstore] never raises.  It always asks the client
    to delete the collection and then, whatever the deletion did, to get
    or create it again.  The pipeline holds a collection afterwards if
    the creation succeeded; if it failed the pipeline keeps whatever it
    held before.  In every case the last log record announces a
    successful reset. *)
Theorem reset_vectorstore_returns (self : RAGPipeline) (w : world) :
  exists self' w' entries,
    reset_vectorstore self w = (Ok self', w')
    /\ collection_name self' = collection_name self
    /\ collection self'
       = match fst (after_create self w) with
         | Ok _ => Some CollectionHandle
         | Raise _ => collection self
         end
    /\ store w' = snd (after_create self w)
    /\ ext w' = ext w
    /\ log w' = log w ++ entries
                ++ [(INFO, py "Collection " ++ repr (collection_name self)
                           ++ py " reset successfully.")].
Proof.
  unfold after_create, after_delete, reset_vectorstore, try_except.
  unfold bind at 1.
  destruct (delete_collection_returns self w) as [e1 ->].
  unfold bind at 1.
  match goal with
  | |- context [setup_vectorstore self ?w1] =>
      destruct (setup_vectorstore_returns self w1) as [e2 ->]
  end.
  unfold bind, logger, ret. cbn [store ext log].
  eexists. eexists. exists [e1; e2].
  split; [reflexivity|]. cbn [store ext log].
  repeat split.
  - now destruct (fst _).
  - now destruct (fst _).
  - now rewrite <- !app_assoc.
Qed.
End Lifecycle.

End LifecycleOps.

(** * More on the prompt renderer *)

Module Prompts.

Import Generation.

(** The text a template renders to: its literal pieces and the values
    of its fields, in order. *)
Definition piece_text (kwargs : gmap string str) (p : piece) : str :=
  match p with
  | Lit s => s
  | Field name => default ([] : str) (kwargs !! name : option str)
  end.

Definition render (t : template) (kwargs : gmap string str) : str :=
  concat (map (piece_text kwargs) t).

Lemma format_ok_iff (t : template) (kwargs : gmap string str) (s : str) :
  format t kwargs = Ok s
  <-> (forall f, In f (fields t) -> is_Some (kwargs !! f)) /\ s = render t kwargs.
Proof.
  revert s. induction t as [|[lit|name] t IH]; intros s; cbn [format fields].
  - split; [intros [= <-]; split; [intros f []|reflexivity]|now intros [_ ->]].
  - destruct (format t kwargs) as [rest|e] eqn:E; simpl.
    + destruct (proj1 (IH rest) eq_refl) as [Hf Hr]. split.
      * intros [= <-]. split; [exact Hf|]. unfold render. simpl. now rewrite Hr.
      * intros [_ ->]. unfold render. simpl. now rewrite Hr.
    + split; [discriminate|]. intros [Hf _].
      pose proof (proj2 (IH (render t kwargs)) (conj Hf eq_refl)). discriminate.
  - destruct (kwargs !! name) as [v|] eqn:Ev.
    + destruct (format t kwargs) as [rest|e] eqn:E; simpl.
      * destruct (proj1 (IH rest) eq_refl) as [Hf Hr]. split.
        -- intros [= <-]. split.
           ++ intros f [<-|Hin]; [rewrite Ev; eauto|auto].
           ++ unfold render. simpl. rewrite Ev. simpl. now rewrite Hr.
        -- intros [_ ->]. unfold render. simpl. rewrite Ev. simpl. now rewrite Hr.
      * split; [discriminate|]. intros [Hf _].
        pose proof (proj2 (IH (render t kwargs))
                      (conj (fun f Hin => Hf f (or_intror Hin)) eq_refl)).
        discriminate.
    + split; [discriminate|]. intros [Hf _].
      destruct (Hf name (or_introl eq_refl)) as [v Hv]. congruence.
Qed.

Lemma get_prompt_ok_iff (T : prompt_table) (prompt_type : string)
    (kwargs : gmap string str) (s : str) :
  get_prompt T prompt_type kwargs = Ok s
  <-> exists t,
        dict_get (prompts T) prompt_type = Some t
        /\ (forall f, In f (fields t) -> is_Some (kwargs !! f))
        /\ s = render t kwargs.
Proof.
  unfold get_prompt. destruct (dict_get (prompts T) prompt_type) as [t|].
  - split.
    + intros H. exists t. split; [reflexivity|]. apply format_ok_iff.
      destruct (format t kwargs) as [r|[]]; congruence.
    + intros (t' & [= <-] & H). apply format_ok_iff in H. now rewrite H.
  - split; [discriminate|]. now intros (t & H & _).
Qed.

(** X18: [get_prompt] returns exactly when the name is one of the
    dict's keys and every field of that template is among the keyword
    arguments; its result is then the template's literal text with each
    field replaced by the argument's value. *)
Theorem get_prompt_returns_iff (T : prompt_table) (prompt_type : string)
    (kwargs : gmap string str) (s : str) :
  get_prompt T prompt_type kwargs = Ok s
  <-> exists t,
        dict_get (prompts T) prompt_type = Some t
        /\ (forall f, In f (fields t) -> is_Some (kwargs !! f))
        /\ s = render t kwargs.
Proof. apply get_prompt_ok_iff. Qed.

(** X19: keyword arguments a template does not mention are ignored:
    a call that succeeds gives the same prompt with more arguments. *)
Theorem get_prompt_ignores_extra_arguments (T : prompt_table) (prompt_type : string)
    (kwargs kwargs' : gmap string str) (s : str) :
  kwargs ⊆ kwargs' ->
  get_prompt T prompt_type kwargs = Ok s ->
  get_prompt T prompt_type kwargs' = Ok s.
Proof.
  intros Hsub H.
  apply get_prompt_ok_iff in H as (t & Ht & Hf & ->).
  apply get_prompt_ok_iff. exists t. split; [exact Ht|].
  assert (Hv : forall f, In f (fields t) -> kwargs' !! f = kwargs !! f).
  { intros f Hin. destruct (Hf f Hin) as [v Hv]. rewrite Hv.
    exact (lookup_weaken _ _ _ _ Hv Hsub). }
  split.
  - intros f Hin. rewrite (Hv f Hin). auto.
  - unfold render. f_equal. clear Ht Hf. induction t as [|[lit|name] t IH]; simpl.
    + reflexivity.
    + f_equal. apply IH. intros f Hin. apply Hv. exact Hin.
    + f_equal.
      * now rewrite (Hv name (or_introl eq_refl)).
      * apply IH. intros f Hin. apply Hv. now right.
Qed.

Lemma format_first_missing (t : template) (kwargs : gmap string str) (pre post : list string)
    (f : string) :
  fields t = pre ++ f :: post ->
  (forall g, In g pre -> is_Some (kwargs !! g)) ->
  kwargs !! f = None ->
  format t kwargs = Raise (KeyError (py f)).
Proof.
  revert pre. induction t as [|[lit|name] t IH]; intros pre Hfields Hpre Hf;
    cbn [format fields] in *.
  - now destruct pre.
  - now rewrite (IH pre Hfields Hpre Hf).
  - destruct pre as [|g pre]; simpl in Hfields; injection Hfields as -> Hfields.
    + now rewrite Hf.
    + destruct (Hpre g (or_introl eq_refl)) as [v ->].
      now rewrite (IH pre Hfields (fun h Hh => Hpre h (or_intror Hh)) Hf).
Qed.

(** X20: when a field of the template is missing from the keyword
    arguments, [get_prompt] raises a [ValueError] that names the
    template and the first missing field, in the template's order. *)
Theorem get_prompt_names_first_missing (T : prompt_table) (prompt_type : string)
    (t : template) (kwargs : gmap string str) (pre post : list string) (f : string) :
  dict_get (prompts T) prompt_type = Some t ->
  fields t = pre ++ f :: post ->
  (forall g, In g pre -> is_Some (kwargs !! g)) ->
  kwargs !! f = None ->
  get_prompt T prompt_type kwargs
  = Raise (ValueError (py "Missing required argument for " ++ py prompt_type
                       ++ py " prompt: '" ++ py f ++ py "'")).
Proof.
  intros Ht Hfields Hpre Hf. unfold get_prompt. rewrite Ht.
  rewrite (format_first_missing t kwargs pre post f Hfields Hpre Hf).
  reflexivity.
Qed.

(** X21: any name other than the four keys makes [get_prompt] raise a
    [ValueError] that repeats the name and lists the four valid ones,
    whatever the templates and the arguments. *)
Theorem get_prompt_rejects_unknown (T : prompt_table) (prompt_type : string)
    (kwargs : gmap string str) :
  prompt_type <> "resume_bullets"%string ->
  prompt_type <> "cover_letter"%string ->
  prompt_type <> "ats_analysis"%string ->
  prompt_type <> "linkedin_message"%string ->
  get_prompt T prompt_type kwargs
  = Raise (ValueError
             (py "Unknown prompt type: " ++ py prompt_type ++ py ". Valid types: "
              ++ py "['resume_bullets', 'cover_letter', 'ats_analysis', 'linkedin_message']")).
Proof.
  intros H1 H2 H3 H4. unfold get_prompt.
  assert (Hget : dict_get (prompts T) prompt_type = None).
  { unfold prompts. cbn [dict_get].
    repeat match goal with
           | |- context [String.eqb ?a prompt_type] =>
               destruct (String.eqb_spec a prompt_type); [congruence|]
           end.
    reflexivity. }
  now rewrite Hget.
Qed.

Definition two_fields : gmap string str :=
  kw [("job_description", py "Backend engineer"); ("resume_content", py "Led teams.")]%string.

Definition plain_prose : prose :=
  {| resume_head := py "Bullets. "; resume_tail := py " End.";
     cover_head := py "Letter. "; cover_tail := py " End.";
     ats_head := py "Report. "; ats_tail := py " End.";
     linkedin_head := py "Message. "; linkedin_tail := py " End." |}.

Example ats_prompt_rendered :
  get_prompt (source_templates plain_prose) "ats_analysis" two_fields
  = Ok (py "Report. Backend engineer" ++ nl ++ nl
        ++ py "**Candidate's Resume Content**:" ++ nl ++ py "Led teams. End.").
Proof. vm_compute. reflexivity. Qed.

Lemma get_prompt_ignores_extra_arguments_witness :
  (two_fields ⊆ <["name" := py "Ada"]> two_fields
   /\ get_prompt (source_templates plain_prose) "ats_analysis" two_fields
      = Ok (py "Report. Backend engineer" ++ nl ++ nl
            ++ py "**Candidate's Resume Content**:" ++ nl ++ py "Led teams. End."))
  /\ get_prompt (source_templates plain_prose) "ats_analysis"
       (<["name" := py "Ada"]> two_fields)
     = Ok (py "Report. Backend engineer" ++ nl ++ nl
           ++ py "**Candidate's Resume Content**:" ++ nl ++ py "Led teams. End.").
Proof.
  assert (H1 : two_fields ⊆ <["name" := py "Ada"]> two_fields)
    by (apply insert_subseteq; reflexivity).
  assert (H2 : get_prompt (source_templates plain_prose) "ats_analysis" two_fields
               = Ok (py "Report. Backend engineer" ++ nl ++ nl
                     ++ py "**Candidate's Resume Content**:" ++ nl ++ py "Led teams. End."))
    by (vm_compute; reflexivity).
  split; [split; assumption|].
  exact (get_prompt_ignores_extra_arguments _ _ _ _ _ H1 H2).
Defined.

Lemma get_prompt_names_first_missing_witness :
  (dict_get (prompts (source_templates plain_prose)) "cover_letter"
   = Some (COVER_LETTER_PROMPT (source_templates plain_prose))
   /\ fields (COVER_LETTER_PROMPT (source_templates plain_prose))
      = ["job_description"] ++ "company_name" :: ["role_title"; "context"]
   /\ (forall g, In g ["job_description"%string] -> is_Some (two_fields !! g))
   /\ two_fields !! "company_name" = None)
  /\ get_prompt (source_templates plain_prose) "cover_letter" two_fields
     = Raise (ValueError (py "Missing required argument for " ++ py "cover_letter"
                          ++ py " prompt: '" ++ py "company_name" ++ py "'")).
Proof.
  assert (H1 : dict_get (prompts (source_templates plain_prose)) "cover_letter"
               = Some (COVER_LETTER_PROMPT (source_templates plain_prose)))
    by reflexivity.
  assert (H2 : fields (COVER_LETTER_PROMPT (source_templates plain_prose))
               = ["job_description"] ++ "company_name" :: ["role_title"; "context"])
    by reflexivity.
  assert (H3 : forall g, In g ["job_description"%string] -> is_Some (two_fields !! g)).
  { intros g [<-|[]]. exists (py "Backend engineer"). vm_compute. reflexivity. }
  assert (H4 : two_fields !! "company_name" = None) by (vm_compute; reflexivity).
  split; [repeat split; assumption|].
  exact (get_prompt_names_first_missing _ _ _ _ _ _ _ H1 H2 H3 H4).
Defined.

Lemma get_prompt_rejects_unknown_witness :
  ("poem"%string <> "resume_bullets"%string /\ "poem"%string <> "cover_letter"%string
   /\ "poem"%string <> "ats_analysis"%string /\ "poem"%string <> "linkedin_message"%string)
  /\ get_prompt (source_templates plain_prose) "poem" two_fields
     = Raise (ValueError
                (py "Unknown prompt type: " ++ py "poem" ++ py ". Valid types: "
                 ++ py "['resume_bullets', 'cover_letter', 'ats_analysis', 'linkedin_message']")).
Proof.
  assert (H1 : "poem"%string <> "resume_bullets"%string) by discriminate.
  assert (H2 : "poem"%string <> "cover_letter"%string) by discriminate.
  assert (H3 : "poem"%string <> "ats_analysis"%string) by discriminate.
  assert (H4 : "poem"%string <> "linkedin_message"%string) by discriminate.
  split; [repeat split; assumption|].
  exact (get_prompt_rejects_unknown _ "poem" two_fields H1 H2 H3 H4).
Defined.

End Prompts.

(** * More on the generation operations *)

Module Operations.

Import Generation.

Lemma str_eqb_eq (a : str) : forall b, str_eqb a b = true <-> a = b.
Proof.
  induction a as [|x a IH]; intros [|y b]; simpl; split; try easy.
  - intros H. apply andb_prop in H as [Hx Hab].
    apply N.eqb_eq in Hx. apply IH in Hab. now subst.
  - intros [= -> ->]. rewrite N.eqb_refl. now apply IH.
Qed.

Section Always.
Context {C : Collaborators}.
Variable T : prompt_table.
Variable self : JobApplicationGenerator.

Local Open Scope py_scope.

Lemma attempt_returns (build : M str) (w : world) :
  exists text w',
    try_except (prompt <- build ;; invoke_llm prompt) (fun e => ret (error_text e)) w
    = (Ok text, w').
Proof.
  unfold try_except, bind, ret.
  destruct (build w) as [[prompt|e] w1]; [|eauto].
  destruct (invoke_llm prompt w1) as [[text|e] w2]; eauto.
Qed.

(** X22: whatever the templates, the index and the chat model do, each
    of the four generation operations returns a text, and so does
    [generate_all]: no exception leaves the generator. *)
Theorem operations_always_return
    (job_description company_name role_title candidate_name resume_content : str)
    (w : world) :
  (exists text w', generate_resume_bullets T self job_description candidate_name w
                   = (Ok text, w'))
  /\ (exists text w', generate_cover_letter T self job_description company_name role_title w
                      = (Ok text, w'))
  /\ (exists text w', generate_ats_analysis T self job_description resume_content w
                      = (Ok text, w'))
  /\ (exists text w', generate_linkedin_message T self job_description company_name
                        role_title w = (Ok text, w'))
  /\ (exists results w', generate_all T self job_description company_name role_title
                           candidate_name resume_content w = (Ok results, w')).
Proof.
  repeat split; try apply attempt_returns.
  unfold generate_all, generate_resume_bullets, generate_cover_letter,
    generate_ats_analysis, generate_linkedin_message.
  unfold bind at 1. edestruct attempt_returns as (t1 & w1 & ->).
  unfold bind at 1. edestruct attempt_returns as (t2 & w2 & ->).
  unfold bind at 1. edestruct attempt_returns as (t3 & w3 & ->).
  unfold bind at 1. edestruct attempt_returns as (t4 & w4 & ->).
  unfold ret. eauto.
Qed.

(** X23: given a resume text that is neither blank nor the placeholder,
    [generate_ats_analysis] does not query the index: the prompt is
    rendered from the job description and that very text, with the
    world untouched until the chat model is called. *)
Theorem ats_uses_given_resume (job_description resume_content : str) (w : world) :
  strip resume_content <> [] ->
  resume_content <> RESUME_PLACEHOLDER ->
  ats_analysis_prompt T self job_description resume_content w
  = (get_prompt T "ats_analysis"
       (kw [("job_description", job_description);
            ("resume_content", resume_content)]%string), w).
Proof.
  intros Hs Hp. unfold ats_analysis_prompt, bind, ret, lift.
  assert (H1 : nonempty resume_content = true) by (destruct resume_content; easy).
  assert (H2 : str_eqb (strip resume_content) [] = false).
  { destruct (str_eqb (strip resume_content) []) eqn:E; [|reflexivity].
    now apply str_eqb_eq in E. }
  assert (H3 : str_eqb resume_content RESUME_PLACEHOLDER = false).
  { destruct (str_eqb resume_content RESUME_PLACEHOLDER) eqn:E; [|reflexivity].
    now apply str_eqb_eq in E. }
  rewrite H1, H2, H3. reflexivity.
Qed.

(** X24: an empty resume text, one of whitespace only, and the
    placeholder the application passes when no resume was entered are
    treated alike: the resume content is then retrieved from the index
    with the fixed query and ten results. *)
Theorem ats_blank_resume_falls_back (job_description resume_content : str) (w : world) :
  resume_content = [] \/ strip resume_content = []
  \/ resume_content = RESUME_PLACEHOLDER ->
  ats_analysis_prompt T self job_description resume_content w
  = (context <- _retrieve_context self
                  (py "resume work experience projects skills education background") 10 ;;
     lift (get_prompt T "ats_analysis"
             (kw [("job_description", job_description);
                  ("resume_content", context)]%string))) w.
Proof.
  intros H. unfold ats_analysis_prompt.
  assert (Hb : negb (nonempty resume_content) || str_eqb (strip resume_content) []
               || str_eqb resume_content RESUME_PLACEHOLDER = true).
  { destruct H as [->|[H|H]].
    - reflexivity.
    - apply str_eqb_eq in H. rewrite H. now rewrite orb_true_r.
    - apply str_eqb_eq in H. rewrite H. now rewrite orb_true_r. }
  now rewrite Hb.
Qed.

(** X25: when embedding the query raises, the store is not queried:
    [search_similar] returns no result, and [_retrieve_context] answers
    with the same sentinel as for an empty index; the failure is only
    visible in the log. *)
Theorem retrieval_when_embedding_fails (query : str) (n_results : Z) (w : world)
    (e : exn) (x : Ext) :
  embed_query query (ext w) = (Raise e, x) ->
  let w' := {| store := store w; ext := x;
               log := log w ++ [(ERROR, py "Search failed: " ++ exn_str e)] |} in
  search_similar (rag_pipeline self) query n_results w = (Ok [], w')
  /\ _retrieve_context self query n_results w
     = (Ok (py "No relevant background information available."), w').
Proof.
  intros He w'.
  assert (Hs : search_similar (rag_pipeline self) query n_results w = (Ok [], w')).
  { unfold search_similar, try_except, bind, on_ext, logger, ret. now rewrite He. }
  split; [exact Hs|].
  unfold _retrieve_context, try_except, bind. now rewrite Hs.
Qed.
End Always.

Lemma ats_uses_given_resume_witness :
  let C := Toy.collaborators true (fun _ => false) in
  let w := Toy.a_world true (fun _ => false) [Toy.new_row] 0 in
  (strip (py "Led teams.") <> [] /\ py "Led teams." <> RESUME_PLACEHOLDER)
  /\ ats_analysis_prompt misconfigured Toy.generator (py "Backend engineer")
       (py "Led teams.") w
     = (get_prompt misconfigured "ats_analysis"
          (kw [("job_description", py "Backend engineer");
               ("resume_content", py "Led teams.")]%string), w).
Proof.
  intros C w.
  assert (H1 : strip (py "Led teams.") <> []) by (vm_compute; discriminate).
  assert (H2 : py "Led teams." <> RESUME_PLACEHOLDER) by (vm_compute; discriminate).
  split; [split; assumption|].
  exact (ats_uses_given_resume misconfigured Toy.generator (py "Backend engineer")
           (py "Led teams.") w H1 H2).
Defined.

Lemma ats_blank_resume_falls_back_witness :
  let C := Toy.collaborators true (fun _ => false) in
  let w := Toy.a_world true (fun _ => false) [Toy.new_row] 0 in
  (RESUME_PLACEHOLDER = [] \/ strip RESUME_PLACEHOLDER = []
   \/ RESUME_PLACEHOLDER = RESUME_PLACEHOLDER)
  /\ ats_analysis_prompt misconfigured Toy.generator (py "Backend engineer")
       RESUME_PLACEHOLDER w
     = bind (_retrieve_context Toy.generator
               (py "resume work experience projects skills education background") 10)
         (fun context =>
            lift (get_prompt misconfigured "ats_analysis"
                    (kw [("job_description", py "Backend engineer");
                         ("resume_content", context)]%string))) w.
Proof.
  intros C w.
  assert (H : RESUME_PLACEHOLDER = [] \/ strip RESUME_PLACEHOLDER = []
              \/ RESUME_PLACEHOLDER = RESUME_PLACEHOLDER) by (right; right; reflexivity).
  split; [exact H|].
  exact (ats_blank_resume_falls_back misconfigured Toy.generator (py "Backend engineer")
           RESUME_PLACEHOLDER w H).
Defined.

Lemma retrieval_when_embedding_fails_witness :
  let C := Toy.collaborators false (fun _ => false) in
  let w := Toy.a_world false (fun _ => false) [Toy.new_row] 0 in
  let e := OtherException (py "quota exceeded") in
  embed_query (py "Backend engineer") (ext w) = (Raise e, 1%nat)
  /\ (let w' := {| store := store w; ext := 1%nat;
                   log := log w ++ [(ERROR, py "Search failed: " ++ exn_str e)] |} in
      search_similar (rag_pipeline Toy.generator) (py "Backend engineer") 5 w = (Ok [], w')
      /\ _retrieve_context Toy.generator (py "Backend engineer") 5 w
         = (Ok (py "No relevant background information available."), w')).
Proof.
  intros C w e.
  assert (H : embed_query (py "Backend engineer") (ext w) = (Raise e, 1%nat))
    by reflexivity.
  split; [exact H|].
  exact (retrieval_when_embedding_fails Toy.generator (py "Backend engineer") 5 w e 1%nat H).
Defined.

Section Built.
Context {C : Collaborators}.
Variable P : prose.
Variable self : JobApplicationGenerator.

(** The renderer on the keyword arguments of the four call sites. *)
Lemma resume_bullets_rendered jd context name :
  get_prompt (source_templates P) "resume_bullets"
    (kw [("job_description", jd); ("context", context); ("name", name)]%string)
  = Ok (resume_head P ++ jd
        ++ (nl ++ nl ++ py "**Candidate's Full Resume Content**:" ++ nl) ++ context
        ++ (nl ++ nl ++ py "**Candidate's Name**: ") ++ name
        ++ resume_tail P).
Proof. rewrite <- (app_nil_r (resume_tail P)). vm_compute. reflexivity. Qed.

Lemma cover_letter_rendered jd company role context :
  get_prompt (source_templates P) "cover_letter"
    (kw [("job_description", jd); ("company_name", company);
         ("role_title", role); ("context", context)]%string)
  = Ok (cover_head P ++ jd
        ++ (nl ++ nl ++ py "**Company Name**: ") ++ company
        ++ (nl ++ nl ++ py "**Role Title**: ") ++ role
        ++ (nl ++ nl ++ py "**Candidate's Relevant Experience/Context**:" ++ nl) ++ context
        ++ cover_tail P).
Proof. rewrite <- (app_nil_r (cover_tail P)). vm_compute. reflexivity. Qed.

Lemma ats_analysis_rendered jd resume :
  get_prompt (source_templates P) "ats_analysis"
    (kw [("job_description", jd); ("resume_content", resume)]%string)
  = Ok (ats_head P ++ jd
        ++ (nl ++ nl ++ py "**Candidate's Resume Content**:" ++ nl) ++ resume
        ++ ats_tail P).
Proof. rewrite <- (app_nil_r (ats_tail P)). vm_compute. reflexivity. Qed.

Lemma linkedin_message_rendered jd company role achievement :
  get_prompt (source_templates P) "linkedin_message"
    (kw [("job_description", jd); ("company_name", company);
         ("role_title", role); ("achievement", achievement)]%string)
  = Ok (linkedin_head P ++ jd
        ++ (nl ++ nl ++ py "**Company Name**: ") ++ company
        ++ (nl ++ nl ++ py "**Role Title**: ") ++ role
        ++ (nl ++ nl ++ py "**One Key Achievement/Qualification**:" ++ nl) ++ achievement
        ++ linkedin_tail P).
Proof. rewrite <- (app_nil_r (linkedin_tail P)). vm_compute. reflexivity. Qed.

(** X27: with the repository's templates, each of the four generation
    operations builds its prompt, whatever its arguments and whatever
    the index and the embedding service do: each call site names a
    template of the table and passes every field the template uses, so
    the renderer does not raise inside an operation.  The prompt is the
    template's text with the operation's arguments and the text read
    from the index in the places of the fields. *)
Theorem operations_build_their_prompts
    (job_description company_name role_title candidate_name resume_content : str)
    (w : world) :
  (exists context w',
     _retrieve_context self job_description 5 w = (Ok context, w')
     /\ resume_bullets_prompt (source_templates P) self job_description candidate_name w
        = (Ok (resume_head P ++ job_description
               ++ (nl ++ nl ++ py "**Candidate's Full Resume Content**:" ++ nl) ++ context
               ++ (nl ++ nl ++ py "**Candidate's Name**: ") ++ candidate_name
               ++ resume_tail P), w'))
  /\ (exists context w',
        _retrieve_context self job_description 5 w = (Ok context, w')
        /\ cover_letter_prompt (source_templates P) self job_description company_name
             role_title w
           = (Ok (cover_head P ++ job_description
                  ++ (nl ++ nl ++ py "**Company Name**: ") ++ company_name
                  ++ (nl ++ nl ++ py "**Role Title**: ") ++ role_title
                  ++ (nl ++ nl ++ py "**Candidate's Relevant Experience/Context**:" ++ nl)
                  ++ context
                  ++ cover_tail P), w'))
  /\ (exists content w',
        (if negb (nonempty resume_content)
            || str_eqb (strip resume_content) []
            || str_eqb resume_content RESUME_PLACEHOLDER
         then _retrieve_context self
                (py "resume work experience projects skills education background") 10 w
         else (Ok resume_content, w)) = (Ok content, w')
        /\ ats_analysis_prompt (source_templates P) self job_description resume_content w
           = (Ok (ats_head P ++ job_description
                  ++ (nl ++ nl ++ py "**Candidate's Resume Content**:" ++ nl) ++ content
                  ++ ats_tail P), w'))
  /\ (exists results w',
        search_similar (rag_pipeline self) job_description 1 w = (Ok results, w')
        /\ linkedin_message_prompt (source_templates P) self job_description company_name
             role_title w
           = (Ok (linkedin_head P ++ job_description
                  ++ (nl ++ nl ++ py "**Company Name**: ") ++ company_name
                  ++ (nl ++ nl ++ py "**Role Title**: ") ++ role_title
                  ++ (nl ++ nl ++ py "**One Key Achievement/Qualification**:" ++ nl)
                  ++ match results with
                     | r :: _ => sr_text r
                     | [] => py "relevant experience in the field"
                     end
                  ++ linkedin_tail P), w')).
Proof.
  split; [|split; [|split]].
  - destruct (retrieve_context_returns self job_description 5 w) as (context & w' & H).
    exists context, w'. split; [exact H|].
    unfold resume_bullets_prompt, bind, lift. rewrite H.
    now rewrite resume_bullets_rendered.
  - destruct (retrieve_context_returns self job_description 5 w) as (context & w' & H).
    exists context, w'. split; [exact H|].
    unfold cover_letter_prompt, bind, lift. rewrite H.
    now rewrite cover_letter_rendered.
  - unfold ats_analysis_prompt, bind, lift, ret.
    match goal with |- context [if ?b then _ else _] => destruct b end.
    + destruct (retrieve_context_returns self
                  (py "resume work experience projects skills education background") 10 w)
        as (context & w' & H).
      exists context, w'. split; [exact H|]. rewrite H.
      now rewrite ats_analysis_rendered.
    + exists resume_content, w. split; [reflexivity|].
      now rewrite ats_analysis_rendered.
  - destruct (search_similar_returns (rag_pipeline self) job_description 1 w)
      as (results & w' & H).
    exists results, w'. split; [exact H|].
    unfold linkedin_message_prompt, bind, lift. rewrite H.
    now rewrite linkedin_message_rendered.
Qed.
End Built.

End Operations.

(** * The document loader *)

Module Loading.

Section Loaded.
Context {E : LoaderEnv}.

Lemma strip_nil : strip [] = [].
Proof. reflexivity. Qed.

Lemma load_pdf_stripped path : strip (load_pdf path) = load_pdf path.
Proof. unfold load_pdf. destruct (pdf_pages path); [apply CleanText.strip_fix|reflexivity]. Qed.

Lemma load_docx_stripped path : strip (load_docx path) = load_docx path.
Proof.
  unfold load_docx.
  destruct (docx_paragraphs path); [apply CleanText.strip_fix|reflexivity].
Qed.

Lemma load_txt_stripped path : strip (load_txt path) = load_txt path.
Proof. unfold load_txt. destruct (read_text path); [apply CleanText.strip_fix|reflexivity]. Qed.

Definition SUPPORTED_TYPES : list str := [py "pdf"; py "docx"; py "txt"].

Lemma load_document_shape (path : str) :
  exists content file_type,
    load_document path = loaded content (basename path) file_type
    /\ strip content = content
    /\ (content <> [] -> In file_type SUPPORTED_TYPES).
Proof.
  unfold load_document.
  destruct (str_eqb _ (py ".pdf")) eqn:E1;
    [|destruct (str_eqb _ (py ".docx")) eqn:E2;
      [|destruct (str_eqb _ (py ".txt")) eqn:E3]].
  - apply Operations.str_eqb_eq in E1. rewrite E1.
    eexists. eexists. split; [reflexivity|]. split; [apply load_pdf_stripped|].
    intros _. left. reflexivity.
  - apply Operations.str_eqb_eq in E2. rewrite E2.
    eexists. eexists. split; [reflexivity|]. split; [apply load_docx_stripped|].
    intros _. right. left. reflexivity.
  - apply Operations.str_eqb_eq in E3. rewrite E3.
    eexists. eexists. split; [reflexivity|]. split; [apply load_txt_stripped|].
    intros _. right. right. left. reflexivity.
  - exists [], (py "unknown"). split; [reflexivity|]. split; [reflexivity|easy].
Qed.

(** X26: every document [load_all_documents] returns comes from a
    regular file listed in the data folder, carries that file's base
    name, has a content that is non-empty and free of leading and
    trailing whitespace, and has one of the types [pdf], [docx],
    [txt]: unreadable, empty and unsupported files are left out. *)
Theorem loaded_documents_shape (self : DocumentLoader) (documents : list Document)
    (doc : Document) :
  load_all_documents self = Ok documents ->
  In doc documents ->
  exists names name content file_type,
    listdir (data_folder self) = Ok names
    /\ In name names
    /\ isfile (path_join (data_folder self) name) = true
    /\ doc = loaded content (basename (path_join (data_folder self) name)) file_type
    /\ content <> []
    /\ strip content = content
    /\ In file_type SUPPORTED_TYPES.
Proof.
  unfold load_all_documents.
  destruct (path_exists (data_folder self)); simpl; [|intros [= <-] []].
  destruct (listdir (data_folder self)) as [names|e]; simpl; [|discriminate].
  intros [= <-] Hin. apply in_flat_map in Hin as (name & Hname & Hin).
  unfold load_entry in Hin.
  destruct (isfile (path_join (data_folder self) name)) eqn:Hfile; [|destruct Hin].
  destruct (supported_name name); [|destruct Hin].
  destruct (load_document_shape (path_join (data_folder self) name))
    as (content & file_type & Hdoc & Hstrip & Htype).
  rewrite Hdoc in Hin. simpl in Hin.
  destruct content as [|c r]; [destruct Hin|].
  destruct Hin as [<-|[]].
  exists names, name, (c :: r), file_type.
  repeat split; auto. apply Htype. discriminate.
Qed.
End Loaded.

(** A folder with one text file and one picture. *)
Definition a_folder : LoaderEnv :=
  {| path_exists _ := true;
     listdir _ := Ok [py "cv.txt"; py "photo.png"];
     isfile _ := true;
     path_join folder name := folder ++ py "/" ++ name;
     basename path := skipn 5 path;
     splitext_ext name := skipn (length name - 4) name;
     lower s := s;
     pdf_pages _ := Raise (OtherException (py "not a PDF"));
     docx_paragraphs _ := Raise (OtherException (py "not a DOCX"));
     read_text _ := Ok (py "Led teams. ") |}.

Lemma loaded_documents_shape_witness :
  let E := a_folder in
  let self := {| data_folder := py "data" |} in
  let doc := loaded (py "Led teams.") (py "cv.txt") (py "txt") in
  (load_all_documents self = Ok [doc] /\ In doc [doc])
  /\ exists names name content file_type,
    listdir (data_folder self) = Ok names
    /\ In name names
    /\ isfile (path_join (data_folder self) name) = true
    /\ doc = loaded content (basename (path_join (data_folder self) name)) file_type
    /\ content <> []
    /\ strip content = content
    /\ In file_type SUPPORTED_TYPES.
Proof.
  intros E self doc.
  assert (H1 : load_all_documents self = Ok [doc]) by (vm_compute; reflexivity).
  assert (H2 : In doc [doc]) by (left; reflexivity).
  split; [split; assumption|].
  exact (loaded_documents_shape self [doc] doc H1 H2).
Defined.

End Loading.
